(** * The Modelfile parser of [parser/parser.go]

    A shallow embedding of [Parse] and of the character classes it is
    built on, followed by the properties of the scanner.

    Modelling choices.
    - A Go [rune] is an [int32]; it is a [Z] here.  The reader handed to
      [Parse] is seen through [bufio.Reader.ReadRune], that is, as the
      sequence of runes it decodes to; the input of the model is that
      sequence.  Read errors other than [io.EOF] are outside the model.
    - A Go string built with [WriteRune] and read back with [String] is the
      UTF-8 encoding of the runes written; UTF-8 being injective, a string
      is the list of its runes, and [b.Len() > 0] is "the list is not
      empty".
    - [Parse] returns a pair [([]Command, error)]; the model returns the
      pair too, [nil] being the empty list and a [nil] error [None]. *)

From Stdlib Require Import ZArith List Bool String Ascii Lia.
Import ListNotations.

Local Open Scope Z_scope.

(** ** Runes and strings *)

Definition rune := Z.

Definition gostring := list rune.

(** The rune of an ASCII character, and the string of an ASCII literal. *)
Definition rune_of_ascii (a : ascii) : rune := Z.of_N (N_of_ascii a).

Definition runes (lit : string) : gostring :=
  map rune_of_ascii (list_ascii_of_string lit).

Definition LF : rune := 10.
Definition CR : rune := 13.
Definition TAB : rune := 9.
Definition SP : rune := 32.
Definition DQUOTE : rune := 34.
Definition HASH : rune := 35.
Definition SQUOTE : rune := 39.
Definition UNDERSCORE : rune := 95.

(** [==] on strings. *)
Fixpoint string_eqb (x y : gostring) : bool :=
  match x, y with
  | [], [] => true
  | a :: x', c :: y' => (a =? c) && string_eqb x' y'
  | _, _ => false
  end.

(** ** Character classes (parser.go, lines 172-190) *)

Definition alpha (r : rune) : bool :=
  ((97 <=? r) && (r <=? 122)) || ((65 <=? r) && (r <=? 90)).

Definition number (r : rune) : bool :=
  (48 <=? r) && (r <=? 57).

Definition space (r : rune) : bool :=
  (r =? SP) || (r =? TAB).

Definition newline (r : rune) : bool :=
  (r =? CR) || (r =? LF).

Definition quote (r : rune) : bool :=
  (r =? DQUOTE) || (r =? SQUOTE).

Definition isValidRole (role : gostring) : bool :=
  string_eqb role (runes "system") || string_eqb role (runes "user")
  || string_eqb role (runes "assistant").

(** [strings.ToLower] on the strings the parser hands to it.  Both call
    sites pass a buffer filled by the name or the parameter state, which
    holds ASCII letters, digits and underscores only (lemma
    [reachable_buffer_ascii] below); on ASCII, [ToLower] adds ['a' - 'A'] to
    the upper-case letters and leaves the rest. *)
Definition lower_rune (r : rune) : rune :=
  if (65 <=? r) && (r <=? 90) then r + 32 else r.

Definition ToLower (x : gostring) : gostring := map lower_rune x.

(** ** Commands, states, errors *)

(** [type Command struct { Name string; Args string; bytes.Buffer }]: the
    embedded buffer holds the raw text consumed for the command. *)
Record Command : Type := mkCommand {
  Name : gostring;
  Args : gostring;
  Buffer : gostring
}.

(** [Command{}]. *)
Definition emptyCommand : Command :=
  {| Name := []; Args := []; Buffer := [] |}.

Definition setName (c : Command) (n : gostring) : Command :=
  {| Name := n; Args := Args c; Buffer := Buffer c |}.

Definition setArgs (c : Command) (a : gostring) : Command :=
  {| Name := Name c; Args := a; Buffer := Buffer c |}.

(** [cmd.WriteRune(r)], the write to the embedded buffer. *)
Definition cmdWriteRune (c : Command) (r : rune) : Command :=
  {| Name := Name c; Args := Args c; Buffer := Buffer c ++ [r] |}.

(** The [iota] block of lines 18-25. *)
Inductive state : Type :=
| stateName
| stateArgs
| stateMultiline
| stateParameter
| stateMessage
| stateComment.

Definition state_iota (s : state) : Z :=
  match s with
  | stateName => 0
  | stateArgs => 1
  | stateMultiline => 2
  | stateParameter => 3
  | stateMessage => 4
  | stateComment => 5
  end.

(** The errors [Parse] builds, kept structured; [errorText] renders them. *)
Inductive error : Type :=
| ErrMissingValue (tok : gostring)
| ErrUnexpectedRune (r : rune) (s : state)
| ErrInvalidRole
| ErrUnterminated
| ErrNoFrom.

(** The text of an error.  [fmt]'s [%q] verb on a rune is library code, taken
    as the parameter [quoteRune]; a state prints as its one digit. *)
Definition errorText (quoteRune : rune -> gostring) (e : error) : gostring :=
  match e with
  | ErrMissingValue tok => runes "missing value for [" ++ tok ++ runes "]"
  | ErrUnexpectedRune r s =>
      runes "unexpected rune " ++ quoteRune r ++ runes " for state "
      ++ [48 + state_iota s]
  | ErrInvalidRole =>
      runes "role must be one of " ++ [DQUOTE] ++ runes "system" ++ [DQUOTE]
      ++ runes ", " ++ [DQUOTE] ++ runes "user" ++ [DQUOTE] ++ runes ", or "
      ++ [DQUOTE] ++ runes "assistant" ++ [DQUOTE]
  | ErrUnterminated => runes "unterminated multiline string"
  | ErrNoFrom => runes "no FROM line"
  end.

(** A small error monad for the early [return nil, err] of the loop. *)
Inductive result (A : Type) : Type :=
| Ok (a : A)
| Err (e : error).

Arguments Ok {A} a.
Arguments Err {A} e.

Definition bind {A B : Type} (m : result A) (k : A -> result B) : result B :=
  match m with
  | Ok a => k a
  | Err e => Err e
  end.

Notation "x <- m ;; k" := (bind m (fun x => k))
  (at level 61, m at next level, right associativity).

(** ** The scanner *)

(** The local variables of [Parse]: [cmds], [cmd], [b] and [s]. *)
Record scanner : Type := mkScanner {
  cmds : list Command;
  cmd : Command;
  b : gostring;
  s : state
}.

Definition initial : scanner :=
  {| cmds := []; cmd := emptyCommand; b := []; s := stateName |}.

(** The directive a finished name routes to (lines 60-71). *)
Definition canonical (word : gostring) : gostring :=
  let name := ToLower word in
  if string_eqb name (runes "from") then runes "model" else name.

Definition route (name : gostring) : state :=
  if string_eqb name (runes "parameter") then stateParameter
  else if string_eqb name (runes "message") then stateMessage
  else stateArgs.

(** One turn of the loop body (lines 42-147) on the rune [r]. *)
Definition step (st : scanner) (r : rune) : result scanner :=
  let c := cmdWriteRune (cmd st) r in
  match s st with
  | stateName =>
      if alpha r || number r then
        Ok {| cmds := cmds st; cmd := c; b := b st ++ [r]; s := stateName |}
      else if r =? HASH then
        Ok {| cmds := cmds st; cmd := c; b := b st; s := stateComment |}
      else if space r then
        match b st with
        | [] => Ok {| cmds := cmds st; cmd := c; b := b st; s := stateName |}
        | _ :: _ =>
            let name := canonical (b st) in
            Ok {| cmds := cmds st; cmd := setName c name; b := [];
                  s := route name |}
        end
      else if newline r then
        match b st with
        | [] => Ok {| cmds := cmds st; cmd := c; b := b st; s := stateName |}
        | _ :: _ => Err (ErrMissingValue (b st))
        end
      else Err (ErrUnexpectedRune r stateName)
  | stateParameter =>
      if alpha r || number r || (r =? UNDERSCORE) then
        Ok {| cmds := cmds st; cmd := c; b := b st ++ [r];
              s := stateParameter |}
      else if space r then
        Ok {| cmds := cmds st; cmd := setName c (ToLower (b st)); b := [];
              s := stateArgs |}
      else if newline r then Err (ErrMissingValue (b st))
      else Err (ErrUnexpectedRune r stateParameter)
  | stateArgs =>
      if newline r then
        let done := setArgs c (Args c ++ b st) in
        Ok {| cmds := cmds st ++ [done]; cmd := emptyCommand; b := [];
              s := stateName |}
      else
        Ok {| cmds := cmds st; cmd := c; b := b st ++ [r]; s := stateArgs |}
  | stateMultiline =>
      Ok {| cmds := cmds st; cmd := c; b := b st ++ [r];
            s := stateMultiline |}
  | stateMessage =>
      if space r then
        if isValidRole (b st) then
          let seeded := b st ++ runes ": " in
          Ok {| cmds := cmds st; cmd := setArgs c (Args c ++ seeded);
                b := []; s := stateArgs |}
        else Err ErrInvalidRole
      else if newline r then Err (ErrMissingValue (b st))
      else
        Ok {| cmds := cmds st; cmd := c; b := b st ++ [r];
              s := stateMessage |}
  | stateComment =>
      if newline r then
        Ok {| cmds := cmds st; cmd := emptyCommand; b := [];
              s := stateName |}
      else Ok {| cmds := cmds st; cmd := c; b := b st; s := stateComment |}
  end.

(** The [for] loop: runes are consumed until [io.EOF] or the first error. *)
Fixpoint run (st : scanner) (input : list rune) : result scanner :=
  match input with
  | [] => Ok st
  | r :: rest => st' <- step st r ;; run st' rest
  end.

(** "handle trailing buffer" (lines 150-161). *)
Definition flush (st : scanner) : result (list Command) :=
  match b st with
  | [] => Ok (cmds st)
  | _ :: _ =>
      match s st with
      | stateArgs => Ok (cmds st ++ [setArgs (cmd st) (b st)])
      | stateMultiline => Err ErrUnterminated
      | _ => Err (ErrMissingValue (b st))
      end
  end.

(** The loop and the trailing buffer together: the tokenizing part. *)
Definition tokenize (input : list rune) : result (list Command) :=
  st <- run initial input ;; flush st.

(** The closing [range] loop and the two [return]s after it (lines
    163-169), on what the tokenizing part produced. *)
Definition hasModel (cs : list Command) : bool :=
  existsb (fun c => string_eqb (Name c) (runes "model")) cs.

Definition conclude (m : result (list Command))
  : list Command * option error :=
  match m with
  | Err e => ([], Some e)
  | Ok cs => if hasModel cs then (cs, None) else ([], Some ErrNoFrom)
  end.

Definition Parse (input : list rune) : list Command * option error :=
  conclude (tokenize input).

(** What the tests compare ([ignoreCommandBuffer]): names and values. *)
Definition record : Type := gostring * gostring.

Definition recordOf (c : Command) : record := (Name c, Args c).

Definition records (out : list Command * option error)
  : list record * option error :=
  (map recordOf (fst out), snd out).

(** ** Vocabulary of the statements *)

(** The runes a directive name, a parameter key and a message role are
    made of (the accumulating cases of lines 49, 82 and 136). *)
Definition wordRune (r : rune) : bool := alpha r || number r.

Definition keyRune (r : rune) : bool :=
  alpha r || number r || (r =? UNDERSCORE).

Definition roleRune (r : rune) : bool := negb (space r) && negb (newline r).

Definition lineRune (r : rune) : bool := negb (newline r).

(** The runes each state appends to the buffer [b]. *)
Definition accepts (q : state) (r : rune) : bool :=
  match q with
  | stateName => wordRune r
  | stateParameter => keyRune r
  | stateMessage => roleRune r
  | stateArgs => lineRune r
  | stateMultiline => true
  | stateComment => false
  end.

(** [cmd.WriteRune] over a run of runes, and the scanner after a run of
    runes that its state appends to [b]. *)
Definition cmdWrite (c : Command) (w : list rune) : Command :=
  {| Name := Name c; Args := Args c; Buffer := Buffer c ++ w |}.

Definition pushAll (st : scanner) (w : list rune) : scanner :=
  {| cmds := cmds st; cmd := cmdWrite (cmd st) w; b := b st ++ w;
     s := s st |}.

(** A document with every LF replaced by the pair CR LF. *)
Definition crlf (input : list rune) : list rune :=
  flat_map (fun r => if r =? LF then [CR; LF] else [r]) input.

(** A scanner and a result up to the raw text of the commands. *)
Definition view (st : scanner)
  : list record * record * gostring * state :=
  (map recordOf (cmds st), recordOf (cmd st), b st, s st).

Definition mapResult {A B : Type} (f : A -> B) (m : result A) : result B :=
  match m with
  | Ok a => Ok (f a)
  | Err e => Err e
  end.

(** A name that [ToLower] leaves alone. *)
Definition lowercased (name : gostring) : Prop := ToLower name = name.

(** What holds of the pending command in each state. *)
Definition pendingOk (st : scanner) : Prop :=
  match s st with
  | stateName => Name (cmd st) = [] /\ Args (cmd st) = []
  | stateParameter => Args (cmd st) = []
  | stateMessage =>
      Name (cmd st) = runes "message" /\ Args (cmd st) = []
  | stateArgs =>
      Args (cmd st) = [] \/ Name (cmd st) = runes "message"
  | stateMultiline | stateComment => True
  end.

(** What holds of the buffer in the states that lower-case it. *)
Definition bufferOk (st : scanner) : Prop :=
  match s st with
  | stateName => Forall (fun r => wordRune r = true) (b st)
  | stateParameter => Forall (fun r => keyRune r = true) (b st)
  | _ => True
  end.

(** Every name on record is lower case. *)
Definition namesOk (st : scanner) : Prop :=
  Forall (fun c => lowercased (Name c)) (cmds st)
  /\ lowercased (Name (cmd st)).

(** The errors of the tokenizing part: those of the loop and of the
    trailing buffer. *)
Definition tokenError (e : error) : bool :=
  match e with
  | ErrMissingValue _ | ErrUnexpectedRune _ _ | ErrInvalidRole
  | ErrUnterminated => true
  | ErrNoFrom => false
  end.

(** The opening and closing delimiter of a quoted value. *)
Definition tripleQuote : list rune := [DQUOTE; DQUOTE; DQUOTE].

(** White space between lines: the runes the name state passes over when
    its buffer is empty. *)
Definition blankRune (r : rune) : bool := space r || newline r.

(** The number of line terminators of a document. *)
Definition newlines (input : list rune) : nat :=
  List.length (filter newline input).

(** The raw text held by the commands of a scanner, completed and
    pending, in order. *)
Definition rawText (st : scanner) : list rune :=
  List.concat (map Buffer (cmds st)) ++ Buffer (cmd st).

(** A scanner with records [cs] completed before its own. *)
Definition withCmds (cs : list Command) (st : scanner) : scanner :=
  {| cmds := cs ++ cmds st; cmd := cmd st; b := b st; s := s st |}.

(** How many of the character classes of the source a rune is in. *)
Definition classCount (r : rune) : Z :=
  Z.b2z (alpha r) + Z.b2z (number r) + Z.b2z (space r)
  + Z.b2z (newline r) + Z.b2z (quote r) + Z.b2z (r =? HASH)
  + Z.b2z (r =? UNDERSCORE).

(** The scanner at the start of a line after the prefix [pre]. *)
Definition lineStart (pre : list rune) (st : scanner) : Prop :=
  run initial pre = Ok st /\ s st = stateName /\ b st = [].

(** ** Strings and character classes *)

Lemma string_eqb_refl (x : gostring) : string_eqb x x = true.
Proof.
  induction x as [|a x IH]; simpl; [reflexivity|].
  now rewrite Z.eqb_refl, IH.
Qed.

Lemma string_eqb_eq (x y : gostring) : string_eqb x y = true <-> x = y.
Proof.
  split.
  - revert y; induction x as [|a x IH]; intros [|c y]; simpl;
      try discriminate; [reflexivity|].
    intros H; apply andb_true_iff in H as [Hac Hxy].
    apply Z.eqb_eq in Hac; subst c; f_equal; now apply IH.
  - intros ->; apply string_eqb_refl.
Qed.

Lemma lower_rune_idem (r : rune) : lower_rune (lower_rune r) = lower_rune r.
Proof.
  unfold lower_rune.
  destruct ((65 <=? r) && (r <=? 90)) eqn:E; [|now rewrite E].
  apply andb_true_iff in E as [E1 E2].
  apply Z.leb_le in E1; apply Z.leb_le in E2.
  replace (r + 32 <=? 90) with false by (symmetry; apply Z.leb_gt; lia).
  now rewrite andb_false_r.
Qed.

Lemma ToLower_idem (x : gostring) : lowercased (ToLower x).
Proof.
  unfold lowercased, ToLower; rewrite map_map.
  apply map_ext; intros r; apply lower_rune_idem.
Qed.

Lemma canonical_lowercased (w : gostring) : lowercased (canonical w).
Proof.
  unfold canonical.
  destruct (string_eqb (ToLower w) (runes "from"));
    [reflexivity | apply ToLower_idem].
Qed.

Lemma wordRune_spec (r : rune) :
  wordRune r = true
  <-> (97 <= r <= 122) \/ (65 <= r <= 90) \/ (48 <= r <= 57).
Proof.
  unfold wordRune, alpha, number.
  rewrite !orb_true_iff, !andb_true_iff, !Z.leb_le; tauto.
Qed.

Lemma lower_rune_spec (r : rune) :
  (65 <= r <= 90 /\ lower_rune r = r + 32)
  \/ (~ 65 <= r <= 90 /\ lower_rune r = r).
Proof.
  unfold lower_rune.
  destruct (Z.leb_spec 65 r), (Z.leb_spec r 90); simpl;
    (left; split; [lia | reflexivity]) || (right; split; [lia | reflexivity]).
Qed.

Lemma lower_rune_same_class (r r' : rune) :
  lower_rune r = lower_rune r' -> wordRune r = wordRune r'.
Proof.
  intros H; apply eq_true_iff_eq; rewrite !wordRune_spec.
  destruct (lower_rune_spec r) as [[? Hr] | [? Hr]],
           (lower_rune_spec r') as [[? Hr'] | [? Hr']];
    rewrite Hr, Hr' in H; lia.
Qed.

(** ** The loop *)

Lemma run_app (st : scanner) (x y : list rune) :
  run st (x ++ y) = (st' <- run st x ;; run st' y).
Proof.
  revert st; induction x as [|r x IH]; intros st; simpl; [reflexivity|].
  destruct (step st r) as [st1|e]; simpl; [apply IH | reflexivity].
Qed.

Lemma run_app_ok (st st1 : scanner) (x y : list rune) :
  run st x = Ok st1 -> run st (x ++ y) = run st1 y.
Proof. intros H; now rewrite run_app, H. Qed.

Lemma cmdWrite_nil (c : Command) : cmdWrite c [] = c.
Proof. destruct c; unfold cmdWrite; simpl; now rewrite app_nil_r. Qed.

Lemma pushAll_nil (st : scanner) : pushAll st [] = st.
Proof.
  destruct st; unfold pushAll; simpl.
  now rewrite cmdWrite_nil, app_nil_r.
Qed.

Lemma pushAll_cons (st : scanner) (r : rune) (w : list rune) :
  pushAll (pushAll st [r]) w = pushAll st (r :: w).
Proof.
  unfold pushAll, cmdWrite; simpl.
  now rewrite <- !app_assoc.
Qed.

Lemma step_accepts (st : scanner) (r : rune) :
  accepts (s st) r = true -> step st r = Ok (pushAll st [r]).
Proof.
  unfold step, pushAll, accepts, keyRune, wordRune, roleRune, lineRune.
  destruct (s st); intros H.
  - now rewrite H.
  - apply negb_true_iff in H; now rewrite H.
  - reflexivity.
  - now rewrite H.
  - apply andb_true_iff in H as [H1 H2].
    apply negb_true_iff in H1; apply negb_true_iff in H2.
    now rewrite H1, H2.
  - discriminate.
Qed.

Lemma run_accepts (st : scanner) (w : list rune) :
  Forall (fun r => accepts (s st) r = true) w ->
  run st w = Ok (pushAll st w).
Proof.
  revert st; induction w as [|r w IH]; intros st Hw; simpl.
  - now rewrite pushAll_nil.
  - inversion Hw as [|? ? Hr Hw']; subst.
    rewrite (step_accepts _ _ Hr); simpl.
    rewrite IH by exact Hw'.
    now rewrite pushAll_cons.
Qed.

(** A comment runs to the next newline without touching [b]. *)
Lemma run_comment (st : scanner) (body : list rune) :
  s st = stateComment ->
  Forall (fun r => lineRune r = true) body ->
  run st body =
  Ok {| cmds := cmds st; cmd := cmdWrite (cmd st) body; b := b st;
        s := stateComment |}.
Proof.
  revert st; induction body as [|r body IH]; intros st Hs Hb; simpl.
  - rewrite cmdWrite_nil; destruct st; simpl in *; now subst.
  - inversion Hb as [|? ? Hr Hb']; subst.
    unfold lineRune in Hr; apply negb_true_iff in Hr.
    unfold step; rewrite Hs, Hr; simpl.
    rewrite IH by (simpl; auto); simpl.
    unfold cmdWrite; simpl; now rewrite <- app_assoc.
Qed.

(** ** Invariants of the loop *)

(** Case analysis of one [step] that returned a scanner. *)
Ltac step_cases H :=
  unfold step in H;
  repeat match type of H with
  | context [match s ?st with _ => _ end] => destruct (s st) eqn:?
  | context [if ?c then _ else _] => destruct c eqn:?
  | context [match b ?st with _ => _ end] => destruct (b st) eqn:?
  end;
  try discriminate H;
  injection H as H; subst.

Lemma route_message (name : gostring) :
  route name = stateMessage -> name = runes "message".
Proof.
  unfold route.
  destruct (string_eqb name (runes "parameter")); [discriminate|].
  destruct (string_eqb name (runes "message")) eqn:E; [|discriminate].
  intros _; now apply string_eqb_eq.
Qed.

Lemma route_not_multiline (name : gostring) :
  route name <> stateMultiline /\ route name <> stateName
  /\ route name <> stateComment.
Proof.
  unfold route.
  destruct (string_eqb name (runes "parameter"));
    [|destruct (string_eqb name (runes "message"))];
    repeat split; discriminate.
Qed.

Lemma step_pendingOk (st st' : scanner) (r : rune) :
  pendingOk st -> step st r = Ok st' -> pendingOk st'.
Proof.
  intros Hinv H; unfold pendingOk in Hinv.
  step_cases H; unfold pendingOk; simpl in *; auto.
  - (* a name is finished: the route decides the state *)
    destruct Hinv as [_ Ha].
    match goal with |- context [route ?n] =>
      pose proof (route_message n) as Hm;
      destruct (route_not_multiline n) as (_ & Hn & _);
      destruct (route n); auto
    end.
    now contradiction Hn.
  - (* a role is finished *)
    destruct Hinv as [Hn _]; now right.
Qed.

Lemma step_not_multiline (st st' : scanner) (r : rune) :
  s st <> stateMultiline -> step st r = Ok st' -> s st' <> stateMultiline.
Proof.
  intros Hinv H.
  step_cases H; simpl; try discriminate; try congruence.
  apply route_not_multiline.
Qed.

Lemma step_bufferOk (st st' : scanner) (r : rune) :
  bufferOk st -> step st r = Ok st' -> bufferOk st'.
Proof.
  intros Hinv H; unfold bufferOk in Hinv.
  step_cases H; unfold bufferOk; simpl in *; auto;
    try (apply Forall_app; split; [assumption|]; constructor; auto).
  match goal with |- context [route ?n] => destruct (route n) end;
    auto; constructor.
Qed.

Lemma step_namesOk (st st' : scanner) (r : rune) :
  namesOk st -> step st r = Ok st' -> namesOk st'.
Proof.
  intros [Hcs Hc] H.
  step_cases H; unfold namesOk; simpl in *; auto;
    (split; [|solve [apply canonical_lowercased | apply ToLower_idem
                    | reflexivity]]); try assumption.
  apply Forall_app; split; [assumption|]; constructor; auto.
Qed.

(** An invariant of [step] that holds at the start holds all along. *)
Section Invariant.
  Variable P : scanner -> Prop.
  Hypothesis P_step :
    forall st st' r, P st -> step st r = Ok st' -> P st'.

Lemma run_invariant (st st' : scanner) (input : list rune) :
  P st -> run st input = Ok st' -> P st'.
Proof.
  revert st; induction input as [|r input IH]; intros st HP H;
    simpl in H.
  - now injection H as <-.
  - destruct (step st r) as [st1|e] eqn:E; simpl in H; [|discriminate].
    apply (IH st1); [now apply (P_step st st1 r) | assumption].
Qed.

End Invariant.

Lemma reachable_pendingOk (input : list rune) (st : scanner) :
  run initial input = Ok st -> pendingOk st.
Proof.
  apply (run_invariant pendingOk step_pendingOk).
  unfold pendingOk; simpl; auto.
Qed.

Lemma reachable_not_multiline (input : list rune) (st : scanner) :
  run initial input = Ok st -> s st <> stateMultiline.
Proof.
  apply (run_invariant (fun st => s st <> stateMultiline)
           step_not_multiline).
  discriminate.
Qed.

(** The buffers that reach [ToLower] hold ASCII letters, digits and
    underscores only. *)
Lemma reachable_buffer_ascii (input : list rune) (st : scanner) :
  run initial input = Ok st -> bufferOk st.
Proof.
  apply (run_invariant bufferOk step_bufferOk).
  unfold bufferOk; simpl; constructor.
Qed.

Lemma reachable_namesOk (input : list rune) (st : scanner) :
  run initial input = Ok st -> namesOk st.
Proof.
  apply (run_invariant namesOk step_namesOk).
  split; [constructor | reflexivity].
Qed.

(** ** Scanners up to the raw text *)

Lemma step_view (st1 st2 : scanner) (r : rune) :
  view st1 = view st2 ->
  mapResult view (step st1 r) = mapResult view (step st2 r).
Proof.
  destruct st1 as [cs1 [n1 a1 raw1] b1 s1].
  destruct st2 as [cs2 [n2 a2 raw2] b2 s2].
  unfold view, recordOf; simpl; intros H.
  injection H as Hcs Hn Ha Hb Hs; subst.
  unfold step; simpl.
  destruct s2;
    repeat match goal with
    | |- context [if ?c then _ else _] => destruct c
    | |- context [match b2 with _ => _ end] => destruct b2
    end;
    simpl; unfold view, recordOf; simpl; rewrite ?map_app, ?Hcs;
    reflexivity.
Qed.

Lemma run_view (st1 st2 : scanner) (input : list rune) :
  view st1 = view st2 ->
  mapResult view (run st1 input) = mapResult view (run st2 input).
Proof.
  revert st1 st2; induction input as [|r input IH]; intros st1 st2 H;
    simpl.
  - now rewrite H.
  - pose proof (step_view st1 st2 r H) as Hr.
    destruct (step st1 r) as [x1|e1], (step st2 r) as [x2|e2];
      simpl in *; try discriminate.
    + apply IH; congruence.
    + assumption.
Qed.

Lemma flush_view (st1 st2 : scanner) :
  view st1 = view st2 ->
  mapResult (map recordOf) (flush st1) = mapResult (map recordOf) (flush st2).
Proof.
  destruct st1 as [cs1 [n1 a1 raw1] b1 s1].
  destruct st2 as [cs2 [n2 a2 raw2] b2 s2].
  unfold view, recordOf; simpl; intros H.
  injection H as Hcs Hn Ha Hb Hs; subst.
  unfold flush; simpl.
  destruct b2; simpl; [now rewrite Hcs|].
  destruct s2; simpl; try reflexivity.
  now rewrite !map_app, Hcs.
Qed.

Lemma hasModel_view (cs1 cs2 : list Command) :
  map recordOf cs1 = map recordOf cs2 -> hasModel cs1 = hasModel cs2.
Proof.
  revert cs2; induction cs1 as [|c1 cs1 IH]; intros [|c2 cs2] H;
    simpl in H; try discriminate; [reflexivity|].
  injection H as Hn _ Hcs.
  unfold hasModel; simpl; rewrite Hn.
  f_equal; now apply IH.
Qed.

Lemma conclude_view (m1 m2 : result (list Command)) :
  mapResult (map recordOf) m1 = mapResult (map recordOf) m2 ->
  records (conclude m1) = records (conclude m2).
Proof.
  destruct m1 as [cs1|e1], m2 as [cs2|e2]; simpl; intros H;
    try discriminate.
  - injection H as H.
    rewrite (hasModel_view _ _ H).
    destruct (hasModel cs2); unfold records; simpl; [now rewrite H|].
    reflexivity.
  - now injection H as ->.
Qed.

(** Two runs that agree up to the raw text give the same records or the
    same error. *)
Lemma Parse_view (st1 st2 : result scanner) :
  mapResult view st1 = mapResult view st2 ->
  records (conclude (x <- st1 ;; flush x))
  = records (conclude (x <- st2 ;; flush x)).
Proof.
  intros H; apply conclude_view.
  destruct st1 as [x1|e1], st2 as [x2|e2]; cbn [bind mapResult] in *;
    try discriminate.
  - apply flush_view; congruence.
  - injection H as ->; reflexivity.
Qed.

(** ** Line terminators *)

(** In every state but the multi-line one, CR followed by LF acts as LF
    alone: CR does what LF would have done, and LF then finds the name
    state with an empty buffer. *)
Lemma step_crlf (st1 st2 : scanner) :
  view st1 = view st2 ->
  s st1 <> stateMultiline ->
  mapResult view (run st1 [CR; LF]) = mapResult view (step st2 LF).
Proof.
  destruct st1 as [cs1 [n1 a1 raw1] b1 s1].
  destruct st2 as [cs2 [n2 a2 raw2] b2 s2].
  unfold view, recordOf; simpl; intros H Hs.
  injection H as Hcs Hn Ha Hb Hs'; subst.
  destruct s2; try (now contradiction Hs);
    try destruct b2; cbn; rewrite ?map_app, ?Hcs; reflexivity.
Qed.

Lemma run_not_multiline (st st' : scanner) (input : list rune) :
  s st <> stateMultiline -> run st input = Ok st' ->
  s st' <> stateMultiline.
Proof.
  apply (run_invariant (fun x => s x <> stateMultiline) step_not_multiline).
Qed.

Lemma run_crlf (input : list rune) (st1 st2 : scanner) :
  view st1 = view st2 ->
  s st1 <> stateMultiline ->
  mapResult view (run st1 (crlf input)) = mapResult view (run st2 input).
Proof.
  revert st1 st2; induction input as [|r input IH]; intros st1 st2 Hv Hs.
  - simpl; now rewrite Hv.
  - change (crlf (r :: input))
      with ((if r =? LF then [CR; LF] else [r]) ++ crlf input).
    rewrite run_app.
    change (run st2 (r :: input)) with (x <- step st2 r ;; run x input).
    assert (Hhead : mapResult view
                      (run st1 (if r =? LF then [CR; LF] else [r]))
                    = mapResult view (step st2 r)).
    { destruct (Z.eqb_spec r LF) as [->|_].
      - now apply step_crlf.
      - simpl. pose proof (step_view st1 st2 r Hv) as Hr.
        destruct (step st1 r); exact Hr. }
    destruct (run st1 (if r =? LF then [CR; LF] else [r])) as [x1|e1] eqn:E1;
      destruct (step st2 r) as [x2|e2]; cbn [bind mapResult] in *;
      try discriminate.
    + apply IH; [congruence|].
      now apply (run_not_multiline st1 x1 _ Hs E1).
    + assumption.
Qed.

(** ** Errors of the tokenizing part *)

Lemma step_error (st : scanner) (r : rune) (e : error) :
  step st r = Err e -> tokenError e = true /\ e <> ErrUnterminated.
Proof.
  unfold step; intros H.
  repeat match type of H with
  | context [match s ?x with _ => _ end] => destruct (s x)
  | context [if ?c then _ else _] => destruct c
  | context [match b ?x with _ => _ end] => destruct (b x)
  end;
  try discriminate H; injection H as <-; split; (reflexivity || discriminate).
Qed.

Lemma run_error (st : scanner) (input : list rune) (e : error) :
  run st input = Err e -> tokenError e = true /\ e <> ErrUnterminated.
Proof.
  revert st; induction input as [|r input IH]; intros st H; simpl in H;
    [discriminate|].
  destruct (step st r) as [st1|e1] eqn:E; simpl in H.
  - now apply (IH st1).
  - injection H as <-; now apply (step_error st r).
Qed.

Lemma tokenize_error (input : list rune) (e : error) :
  tokenize input = Err e -> tokenError e = true /\ e <> ErrUnterminated.
Proof.
  unfold tokenize; intros H.
  destruct (run initial input) as [st|e1] eqn:E; simpl in H.
  - pose proof (reachable_not_multiline input st E) as Hs.
    unfold flush in H.
    destruct (b st); [discriminate|].
    destruct (s st); try discriminate H; try (now contradiction Hs);
      injection H as <-; split; (reflexivity || discriminate).
  - injection H as <-; now apply (run_error initial input).
Qed.

(** The multi-line state has no way in, so its error has no way out. *)
Lemma Parse_never_unterminated (input : list rune) :
  snd (Parse input) <> Some ErrUnterminated.
Proof.
  unfold Parse, conclude.
  destruct (tokenize input) as [cs|e] eqn:E; simpl.
  - destruct (hasModel cs); simpl; discriminate.
  - intros H; injection H as ->.
    now destruct (tokenize_error input ErrUnterminated E) as [_ Hne].
Qed.

(** ** Lines *)

Lemma space_classes (r : rune) :
  space r = true ->
  alpha r || number r = false /\ (r =? HASH) = false
  /\ (r =? UNDERSCORE) = false /\ newline r = false.
Proof.
  unfold space; intros H; apply orb_true_iff in H.
  destruct H as [H|H]; apply Z.eqb_eq in H; subst r; repeat split.
Qed.

Lemma newline_classes (r : rune) :
  newline r = true ->
  alpha r || number r = false /\ (r =? HASH) = false
  /\ (r =? UNDERSCORE) = false /\ space r = false.
Proof.
  unfold newline; intros H; apply orb_true_iff in H.
  destruct H as [H|H]; apply Z.eqb_eq in H; subst r; repeat split.
Qed.

(** The name state at a space with a word in the buffer (lines 55-72). *)
Lemma step_name_space (st : scanner) (sp : rune) :
  s st = stateName -> b st <> [] -> space sp = true ->
  step st sp =
  Ok {| cmds := cmds st;
        cmd := setName (cmdWriteRune (cmd st) sp) (canonical (b st));
        b := []; s := route (canonical (b st)) |}.
Proof.
  intros Hs Hb Hsp.
  destruct (space_classes sp Hsp) as (Hw & Hh & _ & _).
  unfold step; rewrite Hs, Hw, Hh, Hsp.
  destruct (b st); [contradiction | reflexivity].
Qed.

(** A directive word and the space that ends it, from the start of a
    line. *)
Lemma run_directive_word (st : scanner) (w : list rune) (sp : rune) :
  s st = stateName -> b st = [] -> w <> [] ->
  Forall (fun r => wordRune r = true) w -> space sp = true ->
  run st (w ++ [sp]) =
  Ok {| cmds := cmds st;
        cmd := setName (cmdWrite (cmd st) (w ++ [sp])) (canonical w);
        b := []; s := route (canonical w) |}.
Proof.
  intros Hs Hb Hw Hall Hsp.
  rewrite run_app, run_accepts
    by (rewrite Hs; exact Hall).
  cbn [bind run].
  rewrite step_name_space; simpl; auto; rewrite Hb; simpl; [|assumption].
  unfold setName, cmdWriteRune, cmdWrite; simpl.
  now rewrite <- app_assoc.
Qed.

(** The value state up to the newline that ends the line (lines 99-105). *)
Lemma run_value_line (st : scanner) (v : list rune) (nl : rune) :
  s st = stateArgs ->
  Forall (fun r => lineRune r = true) v -> newline nl = true ->
  run st (v ++ [nl]) =
  Ok {| cmds := cmds st
                ++ [setArgs (cmdWrite (cmd st) (v ++ [nl]))
                      (Args (cmd st) ++ b st ++ v)];
        cmd := emptyCommand; b := []; s := stateName |}.
Proof.
  intros Hs Hv Hnl.
  rewrite run_app, run_accepts by (rewrite Hs; exact Hv).
  cbn [bind run].
  unfold step; simpl; rewrite Hs, Hnl; simpl.
  unfold setArgs, cmdWrite; simpl.
  now rewrite <- app_assoc.
Qed.

(** The value state at the end of the input (lines 151-155). *)
Lemma run_value_eof (st : scanner) (v : list rune) :
  s st = stateArgs ->
  Forall (fun r => lineRune r = true) v ->
  (x <- run st v ;; flush x) =
  Ok (match b st ++ v with
      | [] => cmds st
      | _ :: _ => cmds st ++ [setArgs (cmdWrite (cmd st) v) (b st ++ v)]
      end).
Proof.
  intros Hs Hv.
  rewrite run_accepts by (rewrite Hs; exact Hv).
  cbn [bind]; unfold flush; simpl; rewrite Hs.
  destruct (b st ++ v); reflexivity.
Qed.

(** ** Quoted values *)

(** In the value state a double quote is a rune like any other: it joins
    the buffer and the state stays (the [quote] case of line 98 is not
    written yet). *)
Lemma value_state_keeps_quote (st : scanner) :
  s st = stateArgs -> step st DQUOTE = Ok (pushAll st [DQUOTE]).
Proof. intros Hs; apply step_accepts; now rewrite Hs. Qed.

(** C1: on the document [FROM foo], newline, [TEMPLATE ], three double
    quotes, [a b], three double quotes, newline, the parser does not
    enter quoted-value capture: the record it returns for the second
    line is [template] with a value that still holds the three opening
    and the three closing double quotes around [a b], where the claim
    has the value [a b]. *)
Theorem Parse_triple_quote_single_line :
  records
    (Parse (runes "FROM foo" ++ [LF] ++ runes "TEMPLATE " ++ tripleQuote
            ++ runes "a b" ++ tripleQuote ++ [LF]))
  = ([(runes "model", runes "foo");
      (runes "template", tripleQuote ++ runes "a b" ++ tripleQuote)],
     None).
Proof. vm_compute; reflexivity. Qed.

(** With the delimiters on lines of their own the first newline ends the
    record, and the text that follows is read as directives. *)
Example Parse_triple_quote_multi_line :
  records
    (Parse (runes "FROM foo" ++ [LF] ++ runes "TEMPLATE " ++ tripleQuote
            ++ [LF] ++ runes "hello" ++ [LF] ++ tripleQuote ++ [LF]))
  = ([], Some (ErrMissingValue (runes "hello"))).
Proof. vm_compute; reflexivity. Qed.

(** C2: on the document [FROM foo], newline, [TEMPLATE ], three double
    quotes, [abc], where the input ends inside the quoted value, the
    parser reports no error: it returns the record [template] whose value
    is the three double quotes followed by [abc], where the claim has the
    error "unterminated multiline string". *)
Theorem Parse_unterminated_triple_quote :
  records
    (Parse (runes "FROM foo" ++ [LF] ++ runes "TEMPLATE " ++ tripleQuote
            ++ runes "abc"))
  = ([(runes "model", runes "foo");
      (runes "template", tripleQuote ++ runes "abc")],
     None).
Proof. vm_compute; reflexivity. Qed.

(** ** Names of records *)

(** C3: on the document [FROM foo], newline, [PARAMETER], two spaces,
    [x], newline, the parser succeeds and its second record has the empty
    name: the second space finalizes an empty parameter key. *)
Theorem Parse_parameter_empty_name :
  records
    (Parse (runes "FROM foo" ++ [LF] ++ runes "PARAMETER  x" ++ [LF]))
  = ([(runes "model", runes "foo"); ([], runes "x")], None).
Proof. vm_compute; reflexivity. Qed.

(** The parameter state finalizes whatever key it holds, the empty one
    too, where the name state asks for [b.Len() > 0] first. *)
Lemma step_parameter_space (st : scanner) (sp : rune) :
  s st = stateParameter -> space sp = true ->
  step st sp =
  Ok {| cmds := cmds st;
        cmd := setName (cmdWriteRune (cmd st) sp) (ToLower (b st));
        b := []; s := stateArgs |}.
Proof.
  intros Hs Hsp.
  destruct (space_classes sp Hsp) as (Hw & _ & Hu & _).
  unfold step; now rewrite Hs, Hw, Hu, Hsp.
Qed.

(** ** Comments *)

(** C4, the claim refuted: with [abc] in the name buffer, the [#] of the
    line [abc#x] is no error; the line is dropped as a comment and the
    parse succeeds with the one record of the [FROM] line. *)
Lemma hash_after_name_is_no_error :
  mapResult (fun st => (s st, b st))
    (run initial (runes "FROM foo" ++ [LF] ++ runes "abc"))
  = Ok (stateName, runes "abc")
  /\ records (Parse (runes "FROM foo" ++ [LF] ++ runes "abc#x" ++ [LF]))
     = ([(runes "model", runes "foo")], None).
Proof. split; vm_compute; reflexivity. Qed.

(** C4, amended: in the name state a [#] switches the scanner to comment
    handling whether the name buffer is empty or not; after letters or
    digits it is no error.  The comment runs to the next newline, which
    discards the name accumulated so far with the pending command, and
    scanning goes on in the name state with an empty buffer. *)
Theorem hash_in_name_state_starts_comment
    (pre body rest : list rune) (st : scanner) (nl : rune) :
  run initial pre = Ok st ->
  s st = stateName ->
  Forall (fun r => lineRune r = true) body ->
  newline nl = true ->
  run initial (pre ++ [HASH])
  = Ok {| cmds := cmds st; cmd := cmdWriteRune (cmd st) HASH; b := b st;
          s := stateComment |}
  /\ run initial (pre ++ HASH :: body ++ nl :: rest)
     = run {| cmds := cmds st; cmd := emptyCommand; b := [];
              s := stateName |} rest.
Proof.
  intros Hpre Hs Hbody Hnl.
  assert (Hhash : step st HASH
                  = Ok {| cmds := cmds st; cmd := cmdWriteRune (cmd st) HASH;
                          b := b st; s := stateComment |}).
  { unfold step; rewrite Hs; reflexivity. }
  split.
  - rewrite (run_app_ok _ _ _ _ Hpre); simpl; now rewrite Hhash.
  - rewrite (run_app_ok _ _ _ _ Hpre).
    cbn [run]; rewrite Hhash; cbn [bind].
    rewrite run_app, run_comment by (simpl; auto).
    cbn [bind run]; unfold step; simpl; now rewrite Hnl.
Qed.

Lemma hash_in_name_state_starts_comment_witness :
  run initial (runes "abc" ++ [HASH])
  = Ok {| cmds := []; cmd := cmdWrite emptyCommand (runes "abc#");
          b := runes "abc"; s := stateComment |}
  /\ run initial (runes "abc" ++ HASH :: runes "x" ++ LF :: runes "FROM foo")
     = run initial (runes "FROM foo").
Proof.
  apply (hash_in_name_state_starts_comment
           (runes "abc") (runes "x") (runes "FROM foo")
           (pushAll initial (runes "abc")) LF).
  - reflexivity.
  - reflexivity.
  - repeat constructor.
  - reflexivity.
Defined.

(** ** Messages *)

Lemma ToLower_wordRune (w : gostring) :
  Forall (fun r => wordRune r = true) (ToLower w) ->
  Forall (fun r => wordRune r = true) w.
Proof.
  induction w as [|r w IH]; simpl; intros H; constructor;
    inversion H as [|? ? Hr Hw]; subst.
  - rewrite (lower_rune_same_class r (lower_rune r)); [assumption|].
    symmetry; apply lower_rune_idem.
  - now apply IH.
Qed.

Lemma isValidRole_cases (role : gostring) :
  isValidRole role = true ->
  role = runes "system" \/ role = runes "user" \/ role = runes "assistant".
Proof.
  unfold isValidRole; intros H.
  repeat (apply orb_true_iff in H; destruct H as [H|H]);
    apply string_eqb_eq in H; auto.
Qed.

Lemma isValidRole_roleRune (role : gostring) :
  isValidRole role = true -> Forall (fun r => roleRune r = true) role.
Proof.
  intros H; destruct (isValidRole_cases role H) as [-> | [-> | ->]];
    repeat constructor.
Qed.

(** The message state at a space (lines 122-133). *)
Lemma step_message_space (st : scanner) (sp : rune) :
  s st = stateMessage -> space sp = true ->
  step st sp =
  if isValidRole (b st) then
    Ok {| cmds := cmds st;
          cmd := setArgs (cmdWriteRune (cmd st) sp)
                   (Args (cmd st) ++ b st ++ runes ": ");
          b := []; s := stateArgs |}
  else Err ErrInvalidRole.
Proof. intros Hs Hsp; unfold step; now rewrite Hs, Hsp. Qed.

(** A role word other than the three literals is refused as soon as the
    space after it is read, whatever follows. *)
Lemma message_invalid_role
    (pre rest : list rune) (st : scanner) (sp : rune) :
  run initial pre = Ok st -> s st = stateMessage -> space sp = true ->
  isValidRole (b st) = false ->
  Parse (pre ++ sp :: rest) = ([], Some ErrInvalidRole).
Proof.
  intros Hpre Hs Hsp Hrole.
  unfold Parse, tokenize.
  rewrite (run_app_ok _ _ _ _ Hpre); cbn [run].
  now rewrite step_message_space, Hrole.
Qed.

(** A message line that a newline ends: the record is [message] and its
    value the role, [": "] and the rest of the line. *)
Lemma message_line
    (pre w role v : list rune) (st : scanner) (sp1 sp2 nl : rune) :
  lineStart pre st ->
  ToLower w = runes "message" ->
  space sp1 = true -> isValidRole role = true -> space sp2 = true ->
  Forall (fun r => lineRune r = true) v -> newline nl = true ->
  exists st',
    run initial (pre ++ w ++ sp1 :: role ++ sp2 :: v ++ [nl]) = Ok st'
    /\ s st' = stateName /\ b st' = []
    /\ map recordOf (cmds st')
       = map recordOf (cmds st)
         ++ [(runes "message", role ++ runes ": " ++ v)].
Proof.
  intros (Hpre & Hs & Hb) Hw Hsp1 Hrole Hsp2 Hv Hnl.
  assert (Hword : Forall (fun r => wordRune r = true) w).
  { apply ToLower_wordRune; rewrite Hw; repeat constructor. }
  assert (Hne : w <> []).
  { intros ->; discriminate Hw. }
  assert (Hcanon : canonical w = runes "message").
  { unfold canonical; now rewrite Hw. }
  pose proof (reachable_pendingOk pre st Hpre) as Hp.
  unfold pendingOk in Hp; rewrite Hs in Hp; destruct Hp as [_ Hargs].
  eexists; split; [|split; [|split]].
  - rewrite (run_app_ok _ _ _ _ Hpre).
    change (w ++ sp1 :: role ++ sp2 :: v ++ [nl])
      with (w ++ [sp1] ++ role ++ [sp2] ++ v ++ [nl]).
    rewrite app_assoc, run_app.
    rewrite (run_directive_word st w sp1 Hs Hb Hne Hword Hsp1).
    rewrite Hcanon; cbn [bind].
    rewrite run_app, run_accepts
      by (apply isValidRole_roleRune, Hrole).
    cbn [bind]; rewrite run_app; cbn [run].
    rewrite step_message_space by (simpl; auto).
    cbn [pushAll b app]; rewrite Hrole; cbn [bind].
    rewrite run_value_line by (simpl; auto).
    reflexivity.
  - reflexivity.
  - reflexivity.
  - cbn; rewrite map_app; cbn; unfold recordOf; cbn.
    rewrite Hargs; cbn; now rewrite <- app_assoc.
Qed.

(** C5: on the document [FROM foo], newline, [MESSAGE user hi], with no
    newline at the end, the record of the message has the value [hi]: the
    trailing buffer is assigned to the value, and the ["user: "] the role
    had put there is lost, where the claim has the value [user: hi]. *)
Theorem Parse_message_at_end_of_input :
  records (Parse (runes "FROM foo" ++ [LF] ++ runes "MESSAGE user hi"))
  = ([(runes "model", runes "foo"); (runes "message", runes "hi")], None)
  /\ records
       (Parse (runes "FROM foo" ++ [LF] ++ runes "MESSAGE user hi" ++ [LF]))
     = ([(runes "model", runes "foo");
         (runes "message", runes "user: hi")], None).
Proof. split; vm_compute; reflexivity. Qed.

(** ** Missing values *)

(** The scanner in the name, parameter or message state with text in its
    buffer: the end of the input and a newline both report the buffer. *)
Lemma pending_buffer_missing_value (st : scanner) :
  s st = stateName \/ s st = stateParameter \/ s st = stateMessage ->
  b st <> [] ->
  flush st = Err (ErrMissingValue (b st))
  /\ forall nl, newline nl = true ->
     step st nl = Err (ErrMissingValue (b st)).
Proof.
  intros Hs Hb; split.
  - unfold flush; destruct (b st); [contradiction|].
    destruct Hs as [-> | [-> | ->]]; reflexivity.
  - intros nl Hnl.
    destruct (newline_classes nl Hnl) as (Hw & Hh & Hu & Hsp).
    unfold step.
    destruct Hs as [-> | [-> | ->]]; rewrite ?Hw, ?Hh, ?Hu, ?Hsp, ?Hnl;
      simpl; try reflexivity.
    destruct (b st); [contradiction | reflexivity].
Qed.

(** C6: let the scanner stand at the start of a directive name, of a
    parameter key or of a message role, and let [tok] be one or more runes
    of that token (letters and digits for a name, with underscores for a
    key, anything but white space for a role).  If the input ends after
    [tok], or a newline comes after [tok], Parse fails with the error whose
    text is "missing value for [" followed by [tok] and "]". *)
Theorem missing_value_for_partial_token
    (pre tok : list rune) (st : scanner) :
  run initial pre = Ok st ->
  b st = [] ->
  s st = stateName \/ s st = stateParameter \/ s st = stateMessage ->
  tok <> [] ->
  Forall (fun r => accepts (s st) r = true) tok ->
  Parse (pre ++ tok) = ([], Some (ErrMissingValue tok))
  /\ (forall nl rest, newline nl = true ->
      Parse (pre ++ tok ++ nl :: rest) = ([], Some (ErrMissingValue tok)))
  /\ (forall quoteRune,
      errorText quoteRune (ErrMissingValue tok)
      = runes "missing value for [" ++ tok ++ runes "]").
Proof.
  intros Hpre Hb Hs Htok Hall.
  assert (Hrun : run initial (pre ++ tok) = Ok (pushAll st tok)).
  { rewrite (run_app_ok _ _ _ _ Hpre); now apply run_accepts. }
  assert (Hbuf : b (pushAll st tok) = tok) by (simpl; now rewrite Hb).
  destruct (pending_buffer_missing_value (pushAll st tok)) as [Hend Hnl].
  { exact Hs. }
  { now rewrite Hbuf. }
  rewrite Hbuf in Hend, Hnl.
  repeat split.
  - unfold Parse, tokenize; rewrite Hrun; cbn [bind]; now rewrite Hend.
  - intros nl rest Hn.
    unfold Parse, tokenize.
    rewrite app_assoc, (run_app_ok _ _ _ _ Hrun); cbn [run].
    now rewrite (Hnl nl Hn).
Qed.

Lemma missing_value_for_partial_token_witness :
  Parse ((runes "FROM foo" ++ [LF] ++ runes "PARAMETER ") ++ runes "param1")
  = ([], Some (ErrMissingValue (runes "param1")))
  /\ Parse ((runes "FROM foo" ++ [LF] ++ runes "PARAMETER ")
            ++ runes "param1" ++ LF :: runes "SYSTEM x")
     = ([], Some (ErrMissingValue (runes "param1"))).
Proof.
  destruct (missing_value_for_partial_token
              (runes "FROM foo" ++ [LF] ++ runes "PARAMETER ")
              (runes "param1")
              {| cmds := [{| Name := runes "model"; Args := runes "foo";
                             Buffer := runes "FROM foo" ++ [LF] |}];
                 cmd := {| Name := runes "parameter"; Args := [];
                           Buffer := runes "PARAMETER " |};
                 b := []; s := stateParameter |})
    as (Hend & Hnl & _).
  - vm_compute; reflexivity.
  - reflexivity.
  - right; left; reflexivity.
  - discriminate.
  - repeat constructor.
  - split; [exact Hend | exact (Hnl LF (runes "SYSTEM x") eq_refl)].
Defined.

(** ** The base directive *)

Lemma hasModel_false (cs : list Command) :
  hasModel cs = false <-> forall c, In c cs -> Name c <> runes "model".
Proof.
  unfold hasModel; split.
  - intros H c Hin Hname.
    assert (Hex : existsb (fun c => string_eqb (Name c) (runes "model")) cs
                  = true).
    { apply existsb_exists; exists c; split; [assumption|].
      now apply string_eqb_eq. }
    congruence.
  - intros H.
    destruct (existsb _ cs) eqn:E; [|reflexivity].
    apply existsb_exists in E as (c & Hin & Hname).
    apply string_eqb_eq in Hname; now destruct (H c Hin).
Qed.

(** C7: when the input is tokenized to its end without error and no
    record is named [model], Parse fails with "no FROM line"; when a
    record is named [model], the records are returned as they are.  The
    tokenizing part never reports "no FROM line" itself, and when it
    fails its error is the result: the check is the last thing done.
    Every failure comes with the [nil] record list. *)
Theorem no_FROM_line (input : list rune) :
  (forall cs, tokenize input = Ok cs ->
     (forall c, In c cs -> Name c <> runes "model") ->
     Parse input = ([], Some ErrNoFrom))
  /\ (forall cs c, tokenize input = Ok cs ->
       In c cs -> Name c = runes "model" ->
       Parse input = (cs, None))
  /\ (forall e, tokenize input = Err e ->
       e <> ErrNoFrom /\ Parse input = ([], Some e))
  /\ (forall e, snd (Parse input) = Some e -> fst (Parse input) = []).
Proof.
  unfold Parse, conclude; repeat split.
  - intros cs -> Hno.
    apply hasModel_false in Hno; now rewrite Hno.
  - intros cs c -> Hin Hname.
    destruct (hasModel cs) eqn:E; [reflexivity|].
    rewrite hasModel_false in E; now destruct (E c Hin).
  - intros ->; now destruct (tokenize_error input ErrNoFrom H).
  - now rewrite H.
  - intros e.
    destruct (tokenize input) as [cs|e']; [|reflexivity].
    destruct (hasModel cs); [discriminate | reflexivity].
Qed.

Lemma no_FROM_line_witness :
  Parse (runes "PARAMETER k v" ++ [LF] ++ runes "SYSTEM hi" ++ [LF])
  = ([], Some ErrNoFrom)
  /\ fst (Parse (runes "FROM foo" ++ [LF] ++ runes "MESSAGE badrole hi"))
     = [].
Proof.
  split.
  - destruct (no_FROM_line
                (runes "PARAMETER k v" ++ [LF] ++ runes "SYSTEM hi" ++ [LF]))
      as (Hno & _).
    apply (Hno [{| Name := runes "k"; Args := runes "v";
                   Buffer := runes "PARAMETER k v" ++ [LF] |};
                {| Name := runes "system"; Args := runes "hi";
                   Buffer := runes "SYSTEM hi" ++ [LF] |}]).
    + vm_compute; reflexivity.
    + intros c [<- | [<- | []]]; discriminate.
  - destruct (no_FROM_line
                (runes "FROM foo" ++ [LF] ++ runes "MESSAGE badrole hi"))
      as (_ & _ & _ & Hnil).
    apply (Hnil ErrInvalidRole); vm_compute; reflexivity.
Defined.

(** ** Directive keywords *)

Lemma tokenize_app_ok (x y : list rune) (st : scanner) :
  run initial x = Ok st ->
  tokenize (x ++ y) = (st' <- run st y ;; flush st').
Proof. intros H; unfold tokenize; now rewrite (run_app_ok _ _ _ _ H). Qed.

Lemma wordRune_lower (r : rune) : wordRune (lower_rune r) = wordRune r.
Proof. apply lower_rune_same_class, lower_rune_idem. Qed.

Lemma wordRune_ToLower (w : gostring) :
  Forall (fun r => wordRune r = true) w ->
  Forall (fun r => wordRune r = true) (ToLower w).
Proof.
  induction 1 as [|r w Hr _ IH]; simpl; constructor; [|exact IH].
  now rewrite wordRune_lower.
Qed.

(** Every name a successful tokenizing returns is lower case. *)
Lemma tokenize_names_lowercased (input : list rune) (cs : list Command) :
  tokenize input = Ok cs -> Forall (fun c => lowercased (Name c)) cs.
Proof.
  unfold tokenize; intros H.
  destruct (run initial input) as [st|e] eqn:E; simpl in H; [|discriminate].
  destruct (reachable_namesOk input st E) as [Hcs Hc].
  unfold flush in H.
  destruct (b st); [now injection H as <-|].
  destruct (s st); try discriminate H.
  injection H as <-.
  apply Forall_app; split; [assumption|]; constructor; auto.
Qed.

(** A plain directive line: the word, a space, the value, a newline. *)
Lemma directive_line
    (pre w v : list rune) (st : scanner) (sp nl : rune) :
  lineStart pre st ->
  w <> [] -> Forall (fun r => wordRune r = true) w -> space sp = true ->
  route (canonical w) = stateArgs ->
  Forall (fun r => lineRune r = true) v -> newline nl = true ->
  exists st',
    run initial (pre ++ w ++ sp :: v ++ [nl]) = Ok st'
    /\ s st' = stateName /\ b st' = []
    /\ map recordOf (cmds st')
       = map recordOf (cmds st) ++ [(canonical w, v)].
Proof.
  intros (Hpre & Hs & Hb) Hne Hw Hsp Hroute Hv Hnl.
  pose proof (reachable_pendingOk pre st Hpre) as Hp.
  unfold pendingOk in Hp; rewrite Hs in Hp; destruct Hp as [_ Hargs].
  eexists; split; [|split; [|split]].
  - rewrite (run_app_ok _ _ _ _ Hpre).
    change (w ++ sp :: v ++ [nl]) with (w ++ [sp] ++ v ++ [nl]).
    rewrite app_assoc, run_app.
    rewrite (run_directive_word st w sp Hs Hb Hne Hw Hsp).
    rewrite Hroute; cbn [bind].
    rewrite run_value_line by (simpl; auto).
    reflexivity.
  - reflexivity.
  - reflexivity.
  - cbn; rewrite map_app; cbn; unfold recordOf; cbn.
    now rewrite Hargs.
Qed.

(** Two spellings of a keyword that [ToLower] identifies give the same
    records or the same error, whatever follows. *)
Lemma keyword_case_irrelevant
    (pre w w' rest : list rune) (st : scanner) (sp : rune) :
  lineStart pre st ->
  Forall (fun r => wordRune r = true) w ->
  ToLower w' = ToLower w -> space sp = true ->
  records (Parse (pre ++ w' ++ sp :: rest))
  = records (Parse (pre ++ w ++ sp :: rest)).
Proof.
  intros (Hpre & Hs & Hb) Hw Hlow Hsp.
  assert (Hw' : Forall (fun r => wordRune r = true) w').
  { apply ToLower_wordRune; rewrite Hlow; now apply wordRune_ToLower. }
  destruct w as [|r w].
  { destruct w'; [reflexivity | discriminate Hlow]. }
  assert (Hne' : w' <> []) by (intros ->; discriminate Hlow).
  unfold Parse.
  rewrite !(tokenize_app_ok _ _ _ Hpre).
  change (w' ++ sp :: rest) with (w' ++ [sp] ++ rest).
  change ((r :: w) ++ sp :: rest) with ((r :: w) ++ [sp] ++ rest).
  rewrite !app_assoc.
  apply Parse_view.
  rewrite (run_app st (w' ++ [sp]) rest).
  rewrite (run_app st ((r :: w) ++ [sp]) rest).
  rewrite (run_directive_word st w' sp Hs Hb Hne' Hw' Hsp).
  rewrite (run_directive_word st (r :: w) sp Hs Hb) by (auto; discriminate).
  cbn [bind]; apply run_view.
  unfold canonical; rewrite Hlow; reflexivity.
Qed.

(** A document made of the base directive alone. *)
Lemma only_FROM (w v : list rune) (sp : rune) :
  ToLower w = runes "from" -> space sp = true ->
  v <> [] -> Forall (fun r => lineRune r = true) v ->
  records (Parse (w ++ sp :: v)) = ([(runes "model", v)], None)
  /\ forall nl, newline nl = true ->
     records (Parse (w ++ sp :: v ++ [nl])) = ([(runes "model", v)], None).
Proof.
  intros Hlow Hsp Hv Hline.
  assert (Hw : Forall (fun r => wordRune r = true) w).
  { apply ToLower_wordRune; rewrite Hlow; repeat constructor. }
  assert (Hne : w <> []) by (intros ->; discriminate Hlow).
  assert (Hcanon : canonical w = runes "model").
  { unfold canonical; now rewrite Hlow. }
  pose proof (run_directive_word initial w sp eq_refl eq_refl Hne Hw Hsp)
    as Hhead.
  rewrite Hcanon in Hhead; cbn [route] in Hhead.
  change (route (runes "model")) with stateArgs in Hhead.
  split; [|intros nl Hnl]; unfold Parse.
  - change (w ++ sp :: v) with (w ++ [sp] ++ v).
    rewrite app_assoc, (tokenize_app_ok _ _ _ Hhead).
    rewrite run_value_eof by (simpl; auto).
    cbn [b app]; destruct v as [|r v]; [contradiction|].
    reflexivity.
  - change (w ++ sp :: v ++ [nl]) with (w ++ [sp] ++ v ++ [nl]).
    rewrite app_assoc, (tokenize_app_ok _ _ _ Hhead).
    rewrite run_value_line by (simpl; auto).
    reflexivity.
Qed.

(** C8: directive keywords are case-insensitive.  Every name of a record
    Parse returns is lower case; a line made of a keyword [w], a space, a
    value and a newline adds the record named [canonical w], the lower-case
    [w] with [from] renamed to [model]; a keyword may be replaced by any
    other spelling with the same lower-case form without changing the
    records or the error; and the document [FROM x], in any letter case,
    with or without a newline at its end, gives the one record
    [(model, x)]. *)
Theorem directive_keywords_case_insensitive :
  (forall input cs c,
     Parse input = (cs, None) -> In c cs -> lowercased (Name c))
  /\ (forall pre w v st sp nl,
       lineStart pre st ->
       w <> [] -> Forall (fun r => wordRune r = true) w ->
       space sp = true -> route (canonical w) = stateArgs ->
       Forall (fun r => lineRune r = true) v -> newline nl = true ->
       exists st',
         run initial (pre ++ w ++ sp :: v ++ [nl]) = Ok st'
         /\ s st' = stateName /\ b st' = []
         /\ map recordOf (cmds st')
            = map recordOf (cmds st) ++ [(canonical w, v)])
  /\ (forall w, ToLower w = runes "from" -> canonical w = runes "model")
  /\ (forall pre w w' rest st sp,
       lineStart pre st ->
       Forall (fun r => wordRune r = true) w ->
       ToLower w' = ToLower w -> space sp = true ->
       records (Parse (pre ++ w' ++ sp :: rest))
       = records (Parse (pre ++ w ++ sp :: rest)))
  /\ (forall w v sp,
       ToLower w = runes "from" -> space sp = true ->
       v <> [] -> Forall (fun r => lineRune r = true) v ->
       records (Parse (w ++ sp :: v)) = ([(runes "model", v)], None)
       /\ forall nl, newline nl = true ->
          records (Parse (w ++ sp :: v ++ [nl]))
          = ([(runes "model", v)], None)).
Proof.
  split; [|split; [|split; [|split]]].
  - intros input cs c HP Hin.
    unfold Parse, conclude in HP.
    destruct (tokenize input) as [cs'|e] eqn:E; [|discriminate].
    destruct (hasModel cs'); [|discriminate].
    injection HP as ->.
    pose proof (tokenize_names_lowercased input cs E) as Hall.
    rewrite Forall_forall in Hall; now apply Hall.
  - intros; eapply directive_line; eassumption.
  - intros w Hw; unfold canonical; now rewrite Hw.
  - intros; eapply keyword_case_irrelevant; eassumption.
  - intros; now apply only_FROM.
Qed.

Lemma directive_keywords_case_insensitive_witness :
  (records (Parse (runes "fRoM" ++ SP :: runes "x"))
   = ([(runes "model", runes "x")], None)
   /\ records (Parse (runes "fRoM" ++ SP :: runes "x" ++ [LF]))
      = ([(runes "model", runes "x")], None))
  /\ records (Parse ([] ++ runes "From" ++ SP :: runes "llama2"))
     = records (Parse ([] ++ runes "FROM" ++ SP :: runes "llama2"))
  /\ lowercased (runes "model").
Proof.
  destruct directive_keywords_case_insensitive
    as (Hlower & _ & _ & Hcase & Hfrom).
  split; [|split].
  - destruct (Hfrom (runes "fRoM") (runes "x") SP) as [Hend Hnl].
    + reflexivity.
    + reflexivity.
    + discriminate.
    + repeat constructor.
    + split; [exact Hend | exact (Hnl LF eq_refl)].
  - apply (Hcase [] (runes "FROM") (runes "From") (runes "llama2")
             initial SP).
    + repeat split.
    + repeat constructor.
    + reflexivity.
    + reflexivity.
  - apply (Hlower (runes "FROM x")
             [{| Name := runes "model"; Args := runes "x";
                 Buffer := runes "FROM x" |}]
             {| Name := runes "model"; Args := runes "x";
                Buffer := runes "FROM x" |}).
    + vm_compute; reflexivity.
    + left; reflexivity.
Defined.

(** ** The end of the input in the value state *)

(** C9: when the input ends in the value state with an empty buffer, as
    after a directive name and its space, the pending record is dropped:
    the tokenizing part returns the records completed before it and no
    error.  Had a newline come instead, the pending command would have
    been added, with the empty value unless it is a message, whose value
    holds the role. *)
Theorem empty_value_at_end_of_input (pre : list rune) (st : scanner) :
  run initial pre = Ok st ->
  s st = stateArgs ->
  b st = [] ->
  tokenize pre = Ok (cmds st)
  /\ (forall nl, newline nl = true ->
      exists c,
        tokenize (pre ++ [nl]) = Ok (cmds st ++ [c])
        /\ recordOf c = recordOf (cmd st))
  /\ (Name (cmd st) <> runes "message" -> Args (cmd st) = []).
Proof.
  intros Hpre Hs Hb; split; [|split].
  - unfold tokenize; rewrite Hpre; cbn [bind].
    unfold flush; now rewrite Hb.
  - intros nl Hnl.
    exists (setArgs (cmdWrite (cmd st) [nl]) (Args (cmd st))); split.
    + rewrite (tokenize_app_ok _ _ _ Hpre).
      pose proof (run_value_line st [] nl Hs (Forall_nil _) Hnl) as Hrun.
      cbn [app] in Hrun; rewrite Hrun.
      cbn [bind]; unfold flush; cbn.
      now rewrite Hb, !app_nil_r.
    + reflexivity.
  - intros Hname.
    pose proof (reachable_pendingOk pre st Hpre) as Hp.
    unfold pendingOk in Hp; rewrite Hs in Hp.
    destruct Hp as [Hargs | Hmsg]; [assumption | contradiction].
Qed.

Lemma empty_value_at_end_of_input_witness :
  records (Parse (runes "FROM foo" ++ [LF] ++ runes "TEMPLATE "))
  = ([(runes "model", runes "foo")], None)
  /\ records (Parse (runes "FROM foo" ++ [LF] ++ runes "TEMPLATE " ++ [LF]))
     = ([(runes "model", runes "foo"); (runes "template", [])], None).
Proof.
  destruct (empty_value_at_end_of_input
              (runes "FROM foo" ++ [LF] ++ runes "TEMPLATE ")
              {| cmds := [{| Name := runes "model"; Args := runes "foo";
                             Buffer := runes "FROM foo" ++ [LF] |}];
                 cmd := {| Name := runes "template"; Args := [];
                           Buffer := runes "TEMPLATE " |};
                 b := []; s := stateArgs |})
    as (Hend & Hnl & _).
  - vm_compute; reflexivity.
  - reflexivity.
  - reflexivity.
  - split.
    + unfold Parse; rewrite Hend; reflexivity.
    + destruct (Hnl LF eq_refl) as (c & Htok & Hrec).
      change (runes "FROM foo" ++ [LF] ++ runes "TEMPLATE " ++ [LF])
        with ((runes "FROM foo" ++ [LF] ++ runes "TEMPLATE ") ++ [LF]).
      unfold Parse; rewrite Htok.
      destruct c as [n a raw]; injection Hrec as -> ->.
      reflexivity.
Defined.

(** ** CR LF line terminators *)

(** C10: replacing every LF of a document by the pair CR LF changes
    neither the records Parse returns, names and values, nor the error:
    the CR ends the line, and the LF after it is a newline read in the
    name state with an empty buffer. *)
Theorem crlf_same_result (input : list rune) :
  records (Parse (crlf input)) = records (Parse input).
Proof.
  unfold Parse, tokenize.
  apply Parse_view, run_crlf; [reflexivity | discriminate].
Qed.

Example crlf_sample_document :
  crlf (runes "FROM foo" ++ [LF] ++ runes "SYSTEM hi" ++ [LF])
  = runes "FROM foo" ++ [CR; LF] ++ runes "SYSTEM hi" ++ [CR; LF]
  /\ records
       (Parse (runes "FROM foo" ++ [CR; LF] ++ runes "SYSTEM hi" ++ [CR; LF]))
     = ([(runes "model", runes "foo"); (runes "system", runes "hi")], None).
Proof. split; vm_compute; reflexivity. Qed.

(** ** Blank lines and comment lines *)

(** At the start of a line, spaces, tabs and newlines change nothing but
    the raw text of the pending command. *)
Lemma run_blank (st : scanner) (ws : list rune) :
  s st = stateName -> b st = [] ->
  Forall (fun r => blankRune r = true) ws ->
  run st ws =
  Ok {| cmds := cmds st; cmd := cmdWrite (cmd st) ws; b := [];
        s := stateName |}.
Proof.
  revert st; induction ws as [|r ws IH]; intros st Hs Hb Hws.
  - simpl; rewrite cmdWrite_nil; destruct st; simpl in *; now subst.
  - inversion Hws as [|? ? Hr Hws']; subst.
    assert (Hstep : step st r
                    = Ok {| cmds := cmds st; cmd := cmdWriteRune (cmd st) r;
                            b := []; s := stateName |}).
    { unfold blankRune in Hr; apply orb_true_iff in Hr.
      unfold step; rewrite Hs, Hb.
      destruct Hr as [Hr | Hr].
      - destruct (space_classes r Hr) as (Hw & Hh & _ & _).
        now rewrite Hw, Hh, Hr.
      - destruct (newline_classes r Hr) as (Hw & Hh & _ & Hsp).
        now rewrite Hw, Hh, Hsp, Hr. }
    cbn [run]; rewrite Hstep; cbn [bind].
    rewrite IH by (simpl; auto); simpl.
    unfold cmdWrite; simpl; now rewrite <- app_assoc.
Qed.

(** A stretch of input that brings the scanner back to where it was, up
    to the raw text, may be left out. *)
Lemma absent_chunk (pre chunk rest : list rune) (st st' : scanner) :
  run initial pre = Ok st -> run st chunk = Ok st' -> view st' = view st ->
  records (Parse (pre ++ chunk ++ rest)) = records (Parse (pre ++ rest)).
Proof.
  intros Hpre Hchunk Hview.
  unfold Parse.
  rewrite !(tokenize_app_ok _ _ _ Hpre).
  apply Parse_view.
  rewrite (run_app_ok _ _ _ _ Hchunk).
  now apply run_view.
Qed.

Lemma lineStart_view (pre : list rune) (st : scanner) (raw : list rune) :
  lineStart pre st ->
  view {| cmds := cmds st; cmd := {| Name := []; Args := []; Buffer := raw |};
          b := []; s := stateName |}
  = view st.
Proof.
  intros (Hpre & Hs & Hb).
  pose proof (reachable_pendingOk pre st Hpre) as Hp.
  unfold pendingOk in Hp; rewrite Hs in Hp; destruct Hp as [Hn Ha].
  unfold view, recordOf; simpl; now rewrite Hn, Ha, Hb, Hs.
Qed.

(** X1: a comment line, that is optional spaces and tabs, a [#], any
    text and a newline, standing where a line starts, may be removed
    from the document without changing the records or the error. *)
Theorem comment_line_is_absent
    (pre ws body rest : list rune) (st : scanner) (nl : rune) :
  lineStart pre st ->
  Forall (fun r => space r = true) ws ->
  Forall (fun r => lineRune r = true) body ->
  newline nl = true ->
  records (Parse (pre ++ (ws ++ HASH :: body ++ [nl]) ++ rest))
  = records (Parse (pre ++ rest)).
Proof.
  intros Hstart Hws Hbody Hnl.
  pose proof Hstart as (Hpre & Hs & Hb).
  eapply (absent_chunk pre _ rest st); [exact Hpre | |].
  - rewrite run_app, run_blank; auto.
    + cbn [bind run].
      unfold step at 1; cbn [s cmd b cmds].
      change (alpha HASH || number HASH) with false.
      change (HASH =? HASH) with true; cbn [bind].
      rewrite run_app, run_comment by (simpl; auto).
      cbn [bind run]; unfold step; cbn [s]; rewrite Hnl.
      cbn [bind]; reflexivity.
    + eapply Forall_impl; [|exact Hws].
      intros r Hr; unfold blankRune; now rewrite Hr.
  - exact (lineStart_view pre st [] Hstart).
Qed.

Lemma comment_line_is_absent_witness :
  records
    (Parse ((runes "FROM foo" ++ [LF])
            ++ ([TAB] ++ HASH :: runes " a comment" ++ [LF])
            ++ runes "SYSTEM hi"))
  = records (Parse ((runes "FROM foo" ++ [LF]) ++ runes "SYSTEM hi")).
Proof.
  apply (comment_line_is_absent
           (runes "FROM foo" ++ [LF]) [TAB] (runes " a comment")
           (runes "SYSTEM hi")
           {| cmds := [{| Name := runes "model"; Args := runes "foo";
                          Buffer := runes "FROM foo" ++ [LF] |}];
              cmd := emptyCommand; b := []; s := stateName |} LF).
  - repeat split; vm_compute; reflexivity.
  - repeat constructor.
  - repeat constructor.
  - reflexivity.
Defined.

(** X2: spaces, tabs and newlines standing where a line starts (blank
    lines, indentation) may be removed from the document without changing
    the records or the error. *)
Theorem blank_runs_are_skipped
    (pre ws rest : list rune) (st : scanner) :
  lineStart pre st ->
  Forall (fun r => blankRune r = true) ws ->
  records (Parse (pre ++ ws ++ rest)) = records (Parse (pre ++ rest)).
Proof.
  intros Hstart Hws.
  pose proof Hstart as (Hpre & Hs & Hb).
  eapply (absent_chunk pre ws rest st); [exact Hpre | |].
  - now apply run_blank.
  - unfold view, recordOf; simpl; now rewrite Hb, Hs.
Qed.

Lemma blank_runs_are_skipped_witness :
  records
    (Parse ((runes "FROM foo" ++ [LF]) ++ [LF; SP; TAB; CR; LF]
            ++ runes "SYSTEM hi"))
  = records (Parse ((runes "FROM foo" ++ [LF]) ++ runes "SYSTEM hi")).
Proof.
  apply (blank_runs_are_skipped
           (runes "FROM foo" ++ [LF]) [LF; SP; TAB; CR; LF]
           (runes "SYSTEM hi")
           {| cmds := [{| Name := runes "model"; Args := runes "foo";
                          Buffer := runes "FROM foo" ++ [LF] |}];
              cmd := emptyCommand; b := []; s := stateName |}).
  - repeat split; vm_compute; reflexivity.
  - repeat constructor.
Defined.

(** X3: a document made of spaces, tabs and newlines only, the empty
    document included, fails with "no FROM line". *)
Theorem blank_document_has_no_FROM (input : list rune) :
  Forall (fun r => blankRune r = true) input ->
  Parse input = ([], Some ErrNoFrom).
Proof.
  intros Hall.
  unfold Parse, tokenize.
  rewrite run_blank by (auto; reflexivity).
  reflexivity.
Qed.

Lemma blank_document_has_no_FROM_witness :
  Parse [] = ([], Some ErrNoFrom)
  /\ Parse [LF; SP; TAB; CR; LF] = ([], Some ErrNoFrom).
Proof.
  split.
  - apply (blank_document_has_no_FROM []); constructor.
  - apply (blank_document_has_no_FROM [LF; SP; TAB; CR; LF]);
      repeat constructor.
Defined.

(** ** Parameter and message lines *)

Lemma keyword_word (w : gostring) (lit : string) :
  ToLower w = runes lit ->
  Forall (fun r => wordRune r = true) (runes lit) ->
  runes lit <> [] ->
  Forall (fun r => wordRune r = true) w /\ w <> [].
Proof.
  intros Hw Hlit Hne; split.
  - apply ToLower_wordRune; now rewrite Hw.
  - intros ->; now apply Hne.
Qed.

(** The scanner after [PARAMETER], in any letter case, and a space. *)
Lemma run_parameter_keyword
    (pre w : list rune) (st : scanner) (sp : rune) :
  lineStart pre st -> ToLower w = runes "parameter" -> space sp = true ->
  run initial (pre ++ w ++ [sp])
  = Ok {| cmds := cmds st;
          cmd := setName (cmdWrite (cmd st) (w ++ [sp])) (runes "parameter");
          b := []; s := stateParameter |}.
Proof.
  intros (Hpre & Hs & Hb) Hw Hsp.
  destruct (keyword_word w "parameter" Hw) as [Hword Hne];
    [repeat constructor | discriminate |].
  rewrite (run_app_ok _ _ _ _ Hpre).
  rewrite (run_directive_word st w sp Hs Hb Hne Hword Hsp).
  unfold canonical; now rewrite Hw.
Qed.

(** X4: a parameter line, [PARAMETER] in any letter case, a space, a key
    of letters, digits and underscores, a space, a value and a newline,
    adds one record: its name is the key in lower case and its value the
    text between the second space and the newline.  At the end of the
    input the newline may be missing when the value is not empty. *)
Theorem parameter_line
    (pre w key v : list rune) (st : scanner) (sp1 sp2 : rune) :
  lineStart pre st ->
  ToLower w = runes "parameter" ->
  space sp1 = true ->
  Forall (fun r => keyRune r = true) key ->
  space sp2 = true ->
  Forall (fun r => lineRune r = true) v ->
  (forall nl, newline nl = true ->
     exists st',
       run initial (pre ++ w ++ sp1 :: key ++ sp2 :: v ++ [nl]) = Ok st'
       /\ s st' = stateName /\ b st' = []
       /\ map recordOf (cmds st')
          = map recordOf (cmds st) ++ [(ToLower key, v)])
  /\ (v <> [] ->
      mapResult (map recordOf) (tokenize (pre ++ w ++ sp1 :: key ++ sp2 :: v))
      = Ok (map recordOf (cmds st) ++ [(ToLower key, v)])).
Proof.
  intros Hstart Hw Hsp1 Hkey Hsp2 Hv.
  pose proof (run_parameter_keyword pre w st sp1 Hstart Hw Hsp1) as Hhead.
  destruct Hstart as (Hpre & Hs & Hb).
  pose proof (reachable_pendingOk pre st Hpre) as Hp.
  unfold pendingOk in Hp; rewrite Hs in Hp; destruct Hp as [_ Hargs].
  set (st1 := {| cmds := cmds st;
                 cmd := setName (cmdWrite (cmd st) (w ++ [sp1]))
                          (runes "parameter");
                 b := []; s := stateParameter |}) in *.
  assert (Hkeyed : run st1 (key ++ [sp2])
                   = Ok {| cmds := cmds st;
                           cmd := setName
                                    (cmdWriteRune (cmd (pushAll st1 key)) sp2)
                                    (ToLower key);
                           b := []; s := stateArgs |}).
  { rewrite run_app, run_accepts by exact Hkey.
    cbn [bind run]; now rewrite step_parameter_space. }
  split.
  - intros nl Hnl.
    eexists; split; [|split; [|split]].
    + replace (pre ++ w ++ sp1 :: key ++ sp2 :: v ++ [nl])
        with ((pre ++ w ++ [sp1]) ++ (key ++ [sp2]) ++ v ++ [nl])
        by (now rewrite <- !app_assoc).
      rewrite (run_app_ok _ _ _ _ Hhead), (run_app_ok _ _ _ _ Hkeyed).
      rewrite run_value_line by (simpl; auto).
      reflexivity.
    + reflexivity.
    + reflexivity.
    + cbn; rewrite map_app; cbn; unfold recordOf; cbn.
      now rewrite Hargs.
  - intros Hne.
    replace (pre ++ w ++ sp1 :: key ++ sp2 :: v)
      with ((pre ++ w ++ [sp1]) ++ (key ++ [sp2]) ++ v)
      by (now rewrite <- !app_assoc).
    rewrite (tokenize_app_ok _ _ _ Hhead).
    rewrite (run_app_ok _ _ _ _ Hkeyed).
    rewrite run_value_eof by (simpl; auto).
    cbn [b app]; destruct v as [|r v]; [contradiction|].
    cbn; rewrite map_app; reflexivity.
Qed.

Lemma parameter_line_witness :
  mapResult (map recordOf)
    (tokenize ((runes "FROM foo" ++ [LF]) ++ runes "Parameter" ++ SP
               :: runes "Num_CTX" ++ SP :: runes "4096"))
  = Ok ([(runes "model", runes "foo")] ++ [(runes "num_ctx", runes "4096")]).
Proof.
  destruct (parameter_line
              (runes "FROM foo" ++ [LF]) (runes "Parameter")
              (runes "Num_CTX") (runes "4096")
              {| cmds := [{| Name := runes "model"; Args := runes "foo";
                             Buffer := runes "FROM foo" ++ [LF] |}];
                 cmd := emptyCommand; b := []; s := stateName |} SP SP)
    as [_ Hend].
  - repeat split; vm_compute; reflexivity.
  - reflexivity.
  - reflexivity.
  - repeat constructor.
  - reflexivity.
  - repeat constructor.
  - apply Hend; discriminate.
Defined.

(** The scanner after [MESSAGE], in any letter case, and a space. *)
Lemma run_message_keyword
    (pre w : list rune) (st : scanner) (sp : rune) :
  lineStart pre st -> ToLower w = runes "message" -> space sp = true ->
  run initial (pre ++ w ++ [sp])
  = Ok {| cmds := cmds st;
          cmd := setName (cmdWrite (cmd st) (w ++ [sp])) (runes "message");
          b := []; s := stateMessage |}.
Proof.
  intros (Hpre & Hs & Hb) Hw Hsp.
  destruct (keyword_word w "message" Hw) as [Hword Hne];
    [repeat constructor | discriminate |].
  rewrite (run_app_ok _ _ _ _ Hpre).
  rewrite (run_directive_word st w sp Hs Hb Hne Hword Hsp).
  unfold canonical; now rewrite Hw.
Qed.

(** X5: on a message line, [MESSAGE] in any letter case, a space, a role
    word and a space, a role word other than [system], [user] and
    [assistant] (the empty word and other letter cases included) makes
    Parse fail with the role error, whatever follows; a role word that is
    one of the three, followed by text and a newline, adds the record
    [message] whose value is the role, a colon, a space and the text. *)
Theorem message_directive
    (pre w role : list rune) (st : scanner) (sp1 sp2 : rune) :
  lineStart pre st ->
  ToLower w = runes "message" ->
  space sp1 = true ->
  Forall (fun r => roleRune r = true) role ->
  space sp2 = true ->
  (isValidRole role = false ->
   forall rest,
     Parse (pre ++ w ++ sp1 :: role ++ sp2 :: rest)
     = ([], Some ErrInvalidRole))
  /\ (isValidRole role = true ->
      forall v nl,
        Forall (fun r => lineRune r = true) v -> newline nl = true ->
        exists st',
          run initial (pre ++ w ++ sp1 :: role ++ sp2 :: v ++ [nl]) = Ok st'
          /\ s st' = stateName /\ b st' = []
          /\ map recordOf (cmds st')
             = map recordOf (cmds st)
               ++ [(runes "message", role ++ runes ": " ++ v)]).
Proof.
  intros Hstart Hw Hsp1 Hrole Hsp2; split.
  - intros Hbad rest.
    pose proof (run_message_keyword pre w st sp1 Hstart Hw Hsp1) as Hhead.
    replace (pre ++ w ++ sp1 :: role ++ sp2 :: rest)
      with (((pre ++ w ++ [sp1]) ++ role) ++ sp2 :: rest)
      by (now rewrite <- !app_assoc).
    eapply message_invalid_role.
    + rewrite (run_app_ok _ _ _ _ Hhead); now apply run_accepts.
    + reflexivity.
    + exact Hsp2.
    + exact Hbad.
  - intros Hgood v nl Hv Hnl.
    now apply message_line.
Qed.

Lemma message_directive_witness :
  Parse ((runes "FROM foo" ++ [LF]) ++ runes "MESSAGE" ++ SP
         :: runes "System" ++ SP :: runes "hi" ++ [LF])
  = ([], Some ErrInvalidRole).
Proof.
  destruct (message_directive
              (runes "FROM foo" ++ [LF]) (runes "MESSAGE") (runes "System")
              {| cmds := [{| Name := runes "model"; Args := runes "foo";
                             Buffer := runes "FROM foo" ++ [LF] |}];
                 cmd := emptyCommand; b := []; s := stateName |} SP SP)
    as [Hbad _].
  - repeat split; vm_compute; reflexivity.
  - reflexivity.
  - reflexivity.
  - repeat constructor.
  - reflexivity.
  - apply Hbad; reflexivity.
Defined.

(** ** Errors *)

(** X6: in the name state a rune that is no letter, digit, [#], space,
    tab or newline, and in the parameter state a rune that is no letter,
    digit, underscore, space, tab or newline, makes Parse fail with the
    unexpected-rune error, which carries the rune and the state; its text
    ends with the number of the state, 0 for a name and 3 for a key. *)
Theorem unexpected_rune
    (pre rest : list rune) (st : scanner) (r : rune) :
  run initial pre = Ok st ->
  (s st = stateName /\ wordRune r = false /\ r <> HASH)
  \/ (s st = stateParameter /\ keyRune r = false) ->
  blankRune r = false ->
  Parse (pre ++ r :: rest) = ([], Some (ErrUnexpectedRune r (s st)))
  /\ forall quoteRune,
     errorText quoteRune (ErrUnexpectedRune r (s st))
     = runes "unexpected rune " ++ quoteRune r ++ runes " for state "
       ++ match s st with
          | stateName => runes "0"
          | _ => runes "3"
          end.
Proof.
  intros Hpre Hcase Hblank.
  unfold blankRune in Hblank; apply orb_false_iff in Hblank as [Hsp Hnl].
  split.
  - unfold Parse, tokenize.
    rewrite (run_app_ok _ _ _ _ Hpre); cbn [run].
    destruct Hcase as [(Hs & Hw & Hh) | (Hs & Hk)]; unfold step; rewrite Hs.
    + unfold wordRune in Hw; rewrite Hw.
      apply Z.eqb_neq in Hh; now rewrite Hh, Hsp, Hnl.
    + unfold keyRune in Hk; now rewrite Hk, Hsp, Hnl.
  - intros quoteRune; unfold errorText.
    destruct Hcase as [(Hs & _) | (Hs & _)]; rewrite Hs; reflexivity.
Qed.

Lemma unexpected_rune_witness :
  Parse (runes "FROM" ++ 45 :: runes "x")
  = ([], Some (ErrUnexpectedRune 45 stateName))
  /\ Parse ((runes "FROM foo" ++ [LF] ++ runes "PARAMETER top") ++ 45
            :: runes "k 1")
     = ([], Some (ErrUnexpectedRune 45 stateParameter)).
Proof.
  split.
  - apply (unexpected_rune (runes "FROM") (runes "x")
             (pushAll initial (runes "FROM")) 45).
    + vm_compute; reflexivity.
    + left; repeat split; discriminate.
    + reflexivity.
  - apply (unexpected_rune
             (runes "FROM foo" ++ [LF] ++ runes "PARAMETER top") (runes "k 1")
             {| cmds := [{| Name := runes "model"; Args := runes "foo";
                            Buffer := runes "FROM foo" ++ [LF] |}];
                cmd := {| Name := runes "parameter"; Args := [];
                          Buffer := runes "PARAMETER top" |};
                b := runes "top"; s := stateParameter |} 45).
    + vm_compute; reflexivity.
    + right; split; reflexivity.
    + reflexivity.
Defined.

(** X7: the first error ends the scan: when the loop fails on a prefix
    of the document, Parse returns that error whatever follows. *)
Theorem first_error_is_final (pre rest : list rune) (e : error) :
  run initial pre = Err e ->
  Parse (pre ++ rest) = ([], Some e).
Proof.
  intros H; unfold Parse, tokenize.
  now rewrite run_app, H.
Qed.

Lemma first_error_is_final_witness :
  Parse ((runes "FROM" ++ [LF]) ++ runes "FROM foo")
  = ([], Some (ErrMissingValue (runes "FROM"))).
Proof.
  apply (first_error_is_final (runes "FROM" ++ [LF]) (runes "FROM foo")).
  vm_compute; reflexivity.
Defined.

(** ** The end of the input *)

(** X8: after the value of a directive that is no message, when the
    value read so far is not empty, the end of the input acts as a
    newline: the document gives the same records, or the same error, with
    and without a newline at its end. *)
Theorem trailing_newline_is_optional
    (pre : list rune) (st : scanner) (nl : rune) :
  run initial pre = Ok st ->
  s st = stateArgs ->
  b st <> [] ->
  Name (cmd st) <> runes "message" ->
  newline nl = true ->
  records (Parse (pre ++ [nl])) = records (Parse pre).
Proof.
  intros Hpre Hs Hb Hname Hnl.
  pose proof (reachable_pendingOk pre st Hpre) as Hp.
  unfold pendingOk in Hp; rewrite Hs in Hp.
  destruct Hp as [Hargs | Hmsg]; [|contradiction].
  unfold Parse; apply conclude_view.
  rewrite (tokenize_app_ok _ _ _ Hpre).
  pose proof (run_value_line st [] nl Hs (Forall_nil _) Hnl) as Hrun.
  cbn [app] in Hrun; rewrite Hrun; cbn [bind].
  unfold tokenize; rewrite Hpre; cbn [bind].
  unfold flush; cbn [b cmds s]; rewrite Hs.
  destruct (b st) as [|r0 b0] eqn:Eb; [contradiction|].
  cbn; rewrite !map_app; cbn; unfold recordOf; cbn.
  now rewrite Hargs, app_nil_r.
Qed.

Lemma trailing_newline_is_optional_witness :
  records (Parse ((runes "FROM foo" ++ [LF] ++ runes "SYSTEM hi") ++ [CR]))
  = records (Parse (runes "FROM foo" ++ [LF] ++ runes "SYSTEM hi")).
Proof.
  apply (trailing_newline_is_optional
           (runes "FROM foo" ++ [LF] ++ runes "SYSTEM hi")
           {| cmds := [{| Name := runes "model"; Args := runes "foo";
                          Buffer := runes "FROM foo" ++ [LF] |}];
              cmd := {| Name := runes "system"; Args := [];
                        Buffer := runes "SYSTEM hi" |};
              b := runes "hi"; s := stateArgs |} CR).
  - vm_compute; reflexivity.
  - reflexivity.
  - discriminate.
  - discriminate.
  - reflexivity.
Defined.

(** ** The list of records *)

Lemma step_cmds_grow (st st' : scanner) (r : rune) :
  step st r = Ok st' ->
  exists more,
    cmds st' = cmds st ++ more
    /\ (List.length more <= if newline r then 1 else 0)%nat.
Proof.
  intros H.
  assert (Hsame : cmds st' = cmds st ->
                  exists more,
                    cmds st' = cmds st ++ more
                    /\ (List.length more
                        <= if newline r then 1 else 0)%nat).
  { intros ->; exists []; rewrite app_nil_r; split; [reflexivity|].
    destruct (newline r); simpl; lia. }
  destruct (s st) eqn:Hs; unfold step in H; rewrite Hs in H.
  2: { (* the value state: a newline completes the pending command *)
       destruct (newline r).
       - injection H as <-; simpl; eexists [_]; split;
           [reflexivity | simpl; lia].
       - injection H as <-; now apply Hsame. }
  all: repeat match type of H with
       | context [if ?c then _ else _] => destruct c
       | context [match b ?x with _ => _ end] => destruct (b x)
       end;
       try discriminate H; injection H as <-; now apply Hsame.
Qed.

Lemma run_cmds_grow (st st' : scanner) (input : list rune) :
  run st input = Ok st' ->
  exists more,
    cmds st' = cmds st ++ more
    /\ (List.length more <= newlines input)%nat.
Proof.
  revert st; induction input as [|r input IH]; intros st H; simpl in H.
  - injection H as <-; exists []; rewrite app_nil_r; split;
      [reflexivity | simpl; lia].
  - destruct (step st r) as [st1|e] eqn:E; simpl in H; [|discriminate].
    destruct (step_cmds_grow st st1 r E) as (m1 & H1 & L1).
    destruct (IH st1 H) as (m2 & H2 & L2).
    exists (m1 ++ m2); split.
    + rewrite H2, H1; now rewrite app_assoc.
    + rewrite length_app; unfold newlines in *; simpl.
      destruct (newline r); simpl; lia.
Qed.

(** X9: records are only ever added at the end of the list: the records
    completed after a prefix of the document are still there, in the same
    order and unchanged, after any longer prefix. *)
Theorem completed_records_are_final
    (pre rest : list rune) (st st' : scanner) :
  run initial pre = Ok st ->
  run initial (pre ++ rest) = Ok st' ->
  exists more, cmds st' = cmds st ++ more.
Proof.
  intros Hpre Hall.
  rewrite (run_app_ok _ _ _ _ Hpre) in Hall.
  destruct (run_cmds_grow st st' rest Hall) as (more & Hmore & _).
  now exists more.
Qed.

Lemma completed_records_are_final_witness :
  exists more,
    [{| Name := runes "model"; Args := runes "foo";
        Buffer := runes "FROM foo" ++ [LF] |};
     {| Name := runes "system"; Args := runes "hi";
        Buffer := runes "SYSTEM hi" ++ [LF] |}]
    = [{| Name := runes "model"; Args := runes "foo";
          Buffer := runes "FROM foo" ++ [LF] |}] ++ more.
Proof.
  apply (completed_records_are_final
           (runes "FROM foo" ++ [LF]) (runes "SYSTEM hi" ++ [LF])
           {| cmds := [{| Name := runes "model"; Args := runes "foo";
                          Buffer := runes "FROM foo" ++ [LF] |}];
              cmd := emptyCommand; b := []; s := stateName |}
           {| cmds := [{| Name := runes "model"; Args := runes "foo";
                          Buffer := runes "FROM foo" ++ [LF] |};
                       {| Name := runes "system"; Args := runes "hi";
                          Buffer := runes "SYSTEM hi" ++ [LF] |}];
              cmd := emptyCommand; b := []; s := stateName |}).
  - vm_compute; reflexivity.
  - vm_compute; reflexivity.
Defined.

(** X10: a line gives at most one record: the number of records Parse
    returns is at most the number of CR and LF runes of the document,
    plus one for a last line that no newline ends. *)
Theorem records_bounded_by_lines (input : list rune) :
  (List.length (fst (Parse input)) <= newlines input + 1)%nat.
Proof.
  unfold Parse, conclude, tokenize.
  destruct (run initial input) as [st|e] eqn:E; cbn [bind]; [|simpl; lia].
  destruct (run_cmds_grow initial st input E) as (more & Hmore & Hlen).
  simpl in Hmore.
  unfold flush.
  destruct (b st); [|destruct (s st)];
    try (simpl; lia);
    match goal with
    | |- context [hasModel ?cs] => destruct (hasModel cs)
    end; simpl; try lia; rewrite Hmore, ?length_app; simpl; lia.
Qed.

(** ** Documents put end to end *)

Lemma step_withCmds (cs : list Command) (st : scanner) (r : rune) :
  step (withCmds cs st) r = mapResult (withCmds cs) (step st r).
Proof.
  unfold step, withCmds; simpl.
  destruct (s st);
    repeat match goal with
    | |- context [if ?c then _ else _] => destruct c
    | |- context [match b st with _ => _ end] => destruct (b st)
    end;
    simpl; rewrite ?app_assoc; reflexivity.
Qed.

Lemma run_withCmds (cs : list Command) (st : scanner) (input : list rune) :
  run (withCmds cs st) input = mapResult (withCmds cs) (run st input).
Proof.
  revert st; induction input as [|r input IH]; intros st; simpl;
    [reflexivity|].
  rewrite step_withCmds.
  destruct (step st r) as [st1|e]; simpl; [apply IH | reflexivity].
Qed.

Lemma flush_withCmds (cs : list Command) (st : scanner) :
  flush (withCmds cs st) = mapResult (app cs) (flush st).
Proof.
  unfold flush, withCmds; simpl.
  destruct (b st); [reflexivity|].
  destruct (s st); simpl; rewrite ?app_assoc; reflexivity.
Qed.

Lemma flush_after_view (m1 m2 : result scanner) :
  mapResult view m1 = mapResult view m2 ->
  mapResult (map recordOf) (x <- m1 ;; flush x)
  = mapResult (map recordOf) (x <- m2 ;; flush x).
Proof.
  intros H.
  destruct m1 as [x1|e1], m2 as [x2|e2]; cbn [bind mapResult] in *;
    try discriminate.
  - apply flush_view; congruence.
  - injection H as ->; reflexivity.
Qed.

(** X11: tokenizing composes where a line starts: after a first part
    that leaves the scanner at the start of a line, the records of the
    whole document are the records of the first part followed by the
    records the second part gives on its own, and an error of the second
    part on its own is the error of the whole. *)
Theorem tokenize_composes_at_line_start
    (first second : list rune) (st : scanner) :
  lineStart first st ->
  mapResult (map recordOf) (tokenize (first ++ second))
  = mapResult (fun cs => map recordOf (cmds st) ++ map recordOf cs)
      (tokenize second).
Proof.
  intros Hstart.
  pose proof Hstart as (Hfirst & Hs & Hb).
  set (fresh := {| cmds := []; cmd := cmd st; b := []; s := stateName |}).
  assert (Hst : st = withCmds (cmds st) fresh).
  { destruct st as [cs c bb ss]; simpl in *; subst.
    unfold withCmds; simpl; now rewrite app_nil_r. }
  assert (Hfresh : view fresh = view initial).
  { pose proof (reachable_pendingOk first st Hfirst) as Hp.
    unfold pendingOk in Hp; rewrite Hs in Hp; destruct Hp as [Hn Ha].
    unfold view, recordOf; simpl; now rewrite Hn, Ha. }
  rewrite (tokenize_app_ok _ _ _ Hfirst).
  rewrite Hst at 1; rewrite run_withCmds.
  pose proof (flush_after_view (run fresh second) (run initial second)
                (run_view fresh initial second Hfresh)) as Hsame.
  unfold tokenize.
  destruct (run fresh second) as [x1|e1]; cbn [bind mapResult] in *.
  - rewrite flush_withCmds.
    destruct (flush x1) as [c1|f1];
      destruct (x <- run initial second ;; flush x) as [c2|f2];
      cbn [mapResult] in *; try discriminate.
    + injection Hsame as Hsame; now rewrite map_app, Hsame.
    + assumption.
  - destruct (x <- run initial second ;; flush x) as [c2|f2];
      cbn [mapResult] in *; [discriminate | assumption].
Qed.

Lemma tokenize_composes_at_line_start_witness :
  mapResult (map recordOf)
    (tokenize ((runes "FROM foo" ++ [LF]) ++ runes "SYSTEM hi"))
  = Ok ([(runes "model", runes "foo")] ++ [(runes "system", runes "hi")]).
Proof.
  apply (tokenize_composes_at_line_start
           (runes "FROM foo" ++ [LF]) (runes "SYSTEM hi")
           {| cmds := [{| Name := runes "model"; Args := runes "foo";
                          Buffer := runes "FROM foo" ++ [LF] |}];
              cmd := emptyCommand; b := []; s := stateName |}).
  repeat split; vm_compute; reflexivity.
Defined.

(** ** The multi-line state *)

(** X12: no input brings the scanner to the multi-line state, and Parse
    never returns the error "unterminated multiline string". *)
Theorem multiline_state_is_unreachable (input : list rune) :
  (forall st, run initial input = Ok st -> s st <> stateMultiline)
  /\ snd (Parse input) <> Some ErrUnterminated.
Proof.
  split.
  - intros st H.
    apply (run_invariant (fun x => s x <> stateMultiline)
             step_not_multiline initial st input); [discriminate | exact H].
  - apply Parse_never_unterminated.
Qed.

Lemma multiline_state_is_unreachable_witness :
  stateArgs <> stateMultiline.
Proof.
  destruct (multiline_state_is_unreachable
              (runes "TEMPLATE " ++ tripleQuote ++ runes "abc")) as [Hst _].
  apply (Hst {| cmds := [];
                cmd := {| Name := runes "template"; Args := [];
                          Buffer := runes "TEMPLATE " ++ tripleQuote
                                    ++ runes "abc" |};
                b := tripleQuote ++ runes "abc"; s := stateArgs |}).
  vm_compute; reflexivity.
Defined.

(** ** The raw text of the commands *)

Lemma step_rawText (st st' : scanner) (r : rune) :
  s st <> stateComment -> r <> HASH -> step st r = Ok st' ->
  s st' <> stateComment /\ rawText st' = rawText st ++ [r].
Proof.
  intros Hs Hr H.
  apply Z.eqb_neq in Hr.
  unfold step in H; rewrite Hr in H.
  destruct (s st) eqn:Es; try (now contradiction Hs).
  all: repeat match type of H with
       | context [if ?c then _ else _] => destruct c
       | context [match b ?x with _ => _ end] => destruct (b x)
       end;
       try discriminate H; injection H as <-; unfold rawText; simpl;
       (split;
        [ solve [ discriminate
                | match goal with
                  | |- route ?n <> _ => apply (route_not_multiline n)
                  end ]
        | rewrite ?map_app, ?concat_app; simpl;
          rewrite ?app_nil_r, <- ?app_assoc; reflexivity ]).
Qed.

(** X13: on a document without [#], the raw text kept with the commands,
    the completed ones in order and then the pending one, is the text
    read so far, rune for rune. *)
Theorem raw_text_is_the_input (input : list rune) (st : scanner) :
  Forall (fun r => r <> HASH) input ->
  run initial input = Ok st ->
  rawText st = input.
Proof.
  intros Hall Hrun.
  enough (Hgen : forall x st0 st1,
             Forall (fun r => r <> HASH) x ->
             s st0 <> stateComment -> run st0 x = Ok st1 ->
             rawText st1 = rawText st0 ++ x).
  { apply (Hgen input initial st Hall); [discriminate | exact Hrun]. }
  clear; induction x as [|r x IH]; intros st0 st1 Hx Hs H; simpl in H.
  - injection H as <-; now rewrite app_nil_r.
  - inversion Hx as [|? ? Hr Hx']; subst.
    destruct (step st0 r) as [st2|e] eqn:E; simpl in H; [|discriminate].
    destruct (step_rawText st0 st2 r Hs Hr E) as [Hs2 Hraw].
    rewrite (IH st2 st1 Hx' Hs2 H), Hraw.
    now rewrite <- app_assoc.
Qed.

Lemma raw_text_is_the_input_witness :
  (runes "FROM foo" ++ [LF]) ++ runes "SYSTEM "
  = runes "FROM foo" ++ [LF] ++ runes "SYSTEM ".
Proof.
  apply (raw_text_is_the_input
           (runes "FROM foo" ++ [LF] ++ runes "SYSTEM ")
           {| cmds := [{| Name := runes "model"; Args := runes "foo";
                          Buffer := runes "FROM foo" ++ [LF] |}];
              cmd := {| Name := runes "system"; Args := [];
                        Buffer := runes "SYSTEM " |};
              b := []; s := stateArgs |}).
  - repeat constructor; discriminate.
  - vm_compute; reflexivity.
Defined.

(** ** The character classes *)

(** X14: the character classes of the source are disjoint: a rune is in
    at most one of letter, digit, space or tab, CR or LF, quote, [#] and
    underscore, so the order of the cases of a [switch] over them does
    not matter. *)
Theorem rune_classes_are_disjoint (r : rune) : 0 <= classCount r <= 1.
Proof.
  unfold classCount.
  destruct (alpha r) eqn:A, (number r) eqn:N, (space r) eqn:S,
           (newline r) eqn:L, (quote r) eqn:Q, (r =? HASH) eqn:H,
           (r =? UNDERSCORE) eqn:U;
    simpl; try lia; exfalso;
    unfold alpha, number, space, newline, quote, SP, TAB, CR, LF, DQUOTE,
      SQUOTE, HASH, UNDERSCORE in *;
    repeat match goal with
    | X : _ = false |- _ => clear X
    end;
    repeat match goal with
    | X : _ || _ = true |- _ => apply orb_true_iff in X; destruct X
    | X : _ && _ = true |- _ => apply andb_true_iff in X; destruct X
    | X : (_ <=? _) = true |- _ => apply Z.leb_le in X
    | X : (_ =? _) = true |- _ => apply Z.eqb_eq in X
    end;
    lia.
Qed.
